(** * SQLite Database Viewer: a model of [main.py] and its checked properties

    The viewer is a PyQt5 program with two pieces of logic: the worker thread
    [DatabaseLoader.run], which lists the tables of a database file and
    reports a percentage, and the slots of [MainWindow], which keep a
    registry of opened databases, a tree of their tables and a tab widget of
    table grids.  Both are embedded here as functions over explicit state;
    SQLite and the Qt widgets are outside the program and appear as a
    [world] of answers and as small functional models of the widgets. *)

From Stdlib Require Import ZArith List Lia Reals Lra.
From Stdlib Require Import Floats.SpecFloat Strings.Ascii Strings.String.
From stdpp Require Import gmap strings list pretty.
Import ListNotations.
Open Scope Z_scope.

(** ** Python values and arithmetic *)

(** The exceptions that can arise on the modelled paths.  [SqliteError]
    stands for [sqlite3.Error] and its subclasses and carries the message. *)
Inductive exn :=
| ZeroDivisionError
| OverflowError
| ValueError
| IndexError
| TypeError
| AttributeError
| SqliteError (msg : string).

(** What a method hands back to its caller; none of the methods of the
    program returns anything but [None]. *)
Inductive py_value :=
| PyNone
| PyBool (b : bool).

(** Python floats are IEEE 754 binary64. *)
Definition prec : Z := 53.
Definition emax : Z := 1024.

(** A value read from SQLite, as the [sqlite3] module hands it to Python. *)
Inductive sql_value :=
| SqlNull
| SqlInteger (n : Z)
| SqlReal (f : spec_float)
| SqlText (s : string)
| SqlBlob (b : list Byte.byte).

(** An [int] as the exact operand of a true division. *)
Definition int_operand (n : Z) : spec_float :=
  match n with
  | Z0 => S754_zero false
  | Z.pos p => S754_finite false p 0
  | Z.neg p => S754_finite true p 0
  end.

(** [a / b] on two [int]s, as CPython's [long_true_divide] computes it: the
    exact quotient rounded once to the nearest double (ties to even),
    [ZeroDivisionError] for a zero divisor and [OverflowError] when the
    quotient is too large for a double.  For operands that fit in 53 bits
    this is the division of the two converted doubles. *)
Definition py_truediv (a b : Z) : exn + spec_float :=
  if b =? 0 then inl ZeroDivisionError
  else match SFdiv prec emax (int_operand a) (int_operand b) with
       | S754_infinity _ => inl OverflowError
       | q => inr q
       end.

(** [float(n)] for the [int] operand of a mixed operation. *)
Definition float_of_int (n : Z) : spec_float := binary_normalize prec emax n 0 false.

(** [x * n] with a float [x] and an [int] [n]. *)
Definition py_mul_float_int (x : spec_float) (n : Z) : spec_float :=
  SFmul prec emax x (float_of_int n).

(** [int(x)] on a float: truncation toward zero. *)
Definition py_int (x : spec_float) : exn + Z :=
  match x with
  | S754_zero _ => inr 0
  | S754_finite s m e =>
      inr (cond_Zopp s match e with
                       | Z.neg p => Z.shiftr (Z.pos m) (Z.pos p)
                       | _ => Z.shiftl (Z.pos m) e
                       end)
  | S754_infinity _ => inl OverflowError
  | S754_nan => inl ValueError
  end.

(** Line 33: [int(((idx + 1) / total_tables) * 100)]. *)
Definition progress_value (idx total_tables : Z) : exn + Z :=
  match py_truediv (idx + 1) total_tables with
  | inl e => inl e
  | inr q => py_int (py_mul_float_int q 100)
  end.

(** [os.path.basename] (POSIX): what follows the last slash. *)
Fixpoint has_slash (p : string) : bool :=
  match p with
  | EmptyString => false
  | String c rest => if Ascii.eqb c "/"%char then true else has_slash rest
  end.

Fixpoint basename (p : string) : string :=
  match p with
  | EmptyString => EmptyString
  | String c rest =>
      if has_slash rest then basename rest
      else if Ascii.eqb c "/"%char then rest else p
  end.

(** ** The world outside the program *)

Definition row := list sql_value.

(** SQLite's answers: whether [sqlite3.connect] on a path succeeds, and what
    executing a statement on a connection to that path returns, either the
    rows fetched or the message of the [sqlite3.Error] raised.  [py_str] is
    Python's [str] on a cell value. *)
Record world := {
  connect_ok : string -> bool;
  execute_result : string -> string -> string + list row;
  py_str : sql_value -> string
}.

(** What the program does to the outside, in program order. *)
Inductive event :=
| EvConnect (db_path : string)
| EvExecute (db_path sql : string)
| EvClose (db_path : string)
| EvProgress (value : Z)
| EvFinished (tables : list sql_value)
| EvPrint (line : string).

(** ** Effects: state, events and exceptions *)

(** A computation over a state [S]: the new state, the events performed and
    either the exception raised or the value returned.  State changes made
    before an exception are kept, as in Python. *)
Definition M (S A : Type) : Type := S -> S * list event * (exn + A).

Definition ret {S A} (a : A) : M S A := fun s => (s, [], inr a).

Definition raise {S A} (e : exn) : M S A := fun s => (s, [], inl e).

Definition bind {S A B} (c : M S A) (k : A -> M S B) : M S B :=
  fun s =>
    match c s with
    | (s1, tr1, inl e) => (s1, tr1, inl e)
    | (s1, tr1, inr a) =>
        match k a s1 with
        | (s2, tr2, r) => (s2, tr1 ++ tr2, r)
        end
    end.

Notation "x <- c ;; k" := (bind c (fun x => k))
  (at level 62, c at next level, right associativity).
Notation "c ;;; k" := (bind c (fun _ => k))
  (at level 62, right associativity).

Definition emit {S} (ev : event) : M S unit := fun s => (s, [ev], inr tt).

Definition get {S} : M S S := fun s => (s, [], inr s).

Definition modify {S} (f : S -> S) : M S unit := fun s => (f s, [], inr tt).

Definition lift {S A} (r : exn + A) : M S A := fun s => (s, [], r).

(** [try: body except ...: handler]; [handler e = None] when no clause
    matches [e]. *)
Definition try_except {S A} (body : M S A) (handler : exn -> option (M S A)) : M S A :=
  fun s =>
    match body s with
    | (s1, tr1, inl e) =>
        match handler e with
        | Some h => match h s1 with (s2, tr2, r) => (s2, tr1 ++ tr2, r) end
        | None => (s1, tr1, inl e)
        end
    | done => done
    end.

(** [try: body finally: cleanup]. *)
Definition try_finally {S A} (body : M S A) (cleanup : M S unit) : M S A :=
  fun s =>
    match body s with
    | (s1, tr1, r) =>
        match cleanup s1 with
        | (s2, tr2, inl e) => (s2, tr1 ++ tr2, inl e)
        | (s2, tr2, inr _) => (s2, tr1 ++ tr2, r)
        end
    end.

(** [for idx, x in enumerate(l): acc = body idx x acc], counting from [idx]. *)
Fixpoint for_enumerate {S A B} (l : list A) (idx : Z) (body : Z -> A -> B -> M S B)
    (acc : B) : M S B :=
  match l with
  | [] => ret acc
  | x :: rest => acc' <- body idx x acc ;; for_enumerate rest (idx + 1) body acc'
  end.

(** [[f(x) for x in l]]. *)
Fixpoint for_each {S A B} (l : list A) (f : A -> M S B) : M S (list B) :=
  match l with
  | [] => ret []
  | x :: rest => y <- f x ;; ys <- for_each rest f ;; ret (y :: ys)
  end.

(** ** The [sqlite3] calls *)

(** A connection object; it remembers the file it was opened on. *)
Record connection := { conn_path : string }.

Definition connect {S} (w : world) (db_path : string) : M S connection :=
  if connect_ok w db_path
  then emit (EvConnect db_path) ;;; ret {| conn_path := db_path |}
  else raise (SqliteError "unable to open database file").

(** [cursor.execute(sql)] followed by [cursor.fetchall()]. *)
Definition execute {S} (w : world) (conn : connection) (sql : string) : M S (list row) :=
  emit (EvExecute (conn_path conn) sql) ;;;
  match execute_result w (conn_path conn) sql with
  | inl msg => raise (SqliteError msg)
  | inr rows => ret rows
  end.

Definition close {S} (conn : connection) : M S unit := emit (EvClose (conn_path conn)).

(** [t[i]] on a row tuple. *)
Definition index {S} (t : row) (i : nat) : M S sql_value :=
  match t !! i with
  | Some v => ret v
  | None => raise IndexError
  end.

(** ** [DatabaseLoader.run] *)

Definition catalog_query : string := "SELECT name FROM sqlite_master WHERE type='table';".

(** The body of the loop of lines 31-34. *)
Definition run_body (total_tables : Z) (idx : Z) (table : row) (table_list : list sql_value)
    : M unit (list sql_value) :=
  name <- index table 0 ;;
  let table_list := table_list ++ [name] in
  progress <- lift (progress_value idx total_tables) ;;
  emit (EvProgress progress) ;;;
  ret table_list.

Definition run (w : world) (db_path : string) : M unit unit :=
  conn <- connect w db_path ;;
  tables <- execute w conn catalog_query ;;
  let total_tables := Z.of_nat (length tables) in
  table_list <- for_enumerate tables 0 (run_body total_tables) [] ;;
  close conn ;;;
  emit (EvFinished table_list).

(** ** The Qt widgets, as far as the viewer uses them *)

(** A [QTableWidget]: its dimensions, the header labels and the cells as Qt
    keeps them, one row-major vector of [rowCount * columnCount] slots. *)
Record table_widget := {
  rowCount : nat;
  columnCount : nat;
  horizontalHeaderLabels : list string;
  cells : list (option string)
}.

Definition QTableWidget : table_widget :=
  {| rowCount := 0; columnCount := 0; horizontalHeaderLabels := []; cells := [] |}.

(** Rows are added or dropped at the bottom, columns at the right; the cells
    that remain keep their contents. *)
Definition setRowCount (n : nat) (t : table_widget) : table_widget :=
  {| rowCount := n; columnCount := columnCount t;
     horizontalHeaderLabels := horizontalHeaderLabels t;
     cells := resize (n * columnCount t)%nat None (cells t) |}.

Definition row_cells (t : table_widget) (r : nat) : list (option string) :=
  take (columnCount t) (drop (r * columnCount t)%nat (cells t)).

Definition setColumnCount (n : nat) (t : table_widget) : table_widget :=
  {| rowCount := rowCount t; columnCount := n;
     horizontalHeaderLabels := take n (horizontalHeaderLabels t);
     cells := flat_map (fun r => resize n None (row_cells t r)) (seq 0 (rowCount t)) |}.

(** Labels beyond the column count are dropped. *)
Definition setHorizontalHeaderLabels (labels : list string) (t : table_widget) : table_widget :=
  {| rowCount := rowCount t; columnCount := columnCount t;
     horizontalHeaderLabels := take (columnCount t) labels;
     cells := cells t |}.

(** Qt stores the item at slot [row * columnCount + column] and ignores a
    slot outside the vector. *)
Definition setItem (r c : nat) (text : string) (t : table_widget) : table_widget :=
  {| rowCount := rowCount t; columnCount := columnCount t;
     horizontalHeaderLabels := horizontalHeaderLabels t;
     cells := <[(r * columnCount t + c)%nat := Some text]> (cells t) |}.

(** A page of the [QTabWidget]. *)
Record tab := { tab_widget : table_widget; tab_text : string }.

(** [QTabWidget.removeTab]: nothing happens for an index out of range. *)
Fixpoint remove_nth {A} (i : nat) (l : list A) {struct l} : list A :=
  match l with
  | [] => []
  | x :: rest => match i with O => rest | S i' => x :: remove_nth i' rest end
  end.

(** An item of the tree model, with the texts of its child items. *)
Record tree_item := { text : string; children : list string }.

(** A [QModelIndex] of the tree: a top-level row, or a row under one. *)
Inductive tree_index :=
| TopLevel (r : nat)
| Child (parent_row r : nat).

(** ** [MainWindow] *)

(** A value of [database_items]: the dict [{'path': db_path}]. *)
Record db_info := { path : string }.

Record main_window := {
  database_items : gmap string db_info;
  treeModel : list tree_item;
  tabs : list tab;
  currentIndex : Z;
  dock_title : string;
  progress_visible : bool;
  progress_bar_value : Z;
  status_text : string;
  (** the loader threads started so far: the name captured by the handler
      connected to [finished], and the path given to the thread *)
  loaders : list (string * string)
}.

(** The window after [__init__]. *)
Definition initial_window : main_window :=
  {| database_items := ∅; treeModel := []; tabs := []; currentIndex := -1;
     dock_title := "Table Data"; progress_visible := false;
     progress_bar_value := -1; status_text := "Ready"; loaders := [] |}.

Definition set_database_items (f : gmap string db_info -> gmap string db_info)
    (s : main_window) : main_window :=
  {| database_items := f (database_items s); treeModel := treeModel s; tabs := tabs s;
     currentIndex := currentIndex s; dock_title := dock_title s;
     progress_visible := progress_visible s; progress_bar_value := progress_bar_value s;
     status_text := status_text s; loaders := loaders s |}.

Definition set_treeModel (f : list tree_item -> list tree_item) (s : main_window) : main_window :=
  {| database_items := database_items s; treeModel := f (treeModel s); tabs := tabs s;
     currentIndex := currentIndex s; dock_title := dock_title s;
     progress_visible := progress_visible s; progress_bar_value := progress_bar_value s;
     status_text := status_text s; loaders := loaders s |}.

Definition set_tabs (f : list tab -> list tab) (current : Z) (s : main_window) : main_window :=
  {| database_items := database_items s; treeModel := treeModel s; tabs := f (tabs s);
     currentIndex := current; dock_title := dock_title s;
     progress_visible := progress_visible s; progress_bar_value := progress_bar_value s;
     status_text := status_text s; loaders := loaders s |}.

Definition setWindowTitle (title : string) (s : main_window) : main_window :=
  {| database_items := database_items s; treeModel := treeModel s; tabs := tabs s;
     currentIndex := currentIndex s; dock_title := title;
     progress_visible := progress_visible s; progress_bar_value := progress_bar_value s;
     status_text := status_text s; loaders := loaders s |}.

Definition set_progress (visible : bool) (value : Z) (s : main_window) : main_window :=
  {| database_items := database_items s; treeModel := treeModel s; tabs := tabs s;
     currentIndex := currentIndex s; dock_title := dock_title s;
     progress_visible := visible; progress_bar_value := value;
     status_text := status_text s; loaders := loaders s |}.

Definition setText (label : string) (s : main_window) : main_window :=
  {| database_items := database_items s; treeModel := treeModel s; tabs := tabs s;
     currentIndex := currentIndex s; dock_title := dock_title s;
     progress_visible := progress_visible s; progress_bar_value := progress_bar_value s;
     status_text := label; loaders := loaders s |}.

(** [DatabaseLoader(db_path)], connected to the handler for [db_name], started. *)
Definition start_loader (db_name db_path : string) (s : main_window) : main_window :=
  {| database_items := database_items s; treeModel := treeModel s; tabs := tabs s;
     currentIndex := currentIndex s; dock_title := dock_title s;
     progress_visible := progress_visible s; progress_bar_value := progress_bar_value s;
     status_text := status_text s; loaders := loaders s ++ [(db_name, db_path)] |}.

Definition loadDatabase (db_name db_path : string) : M main_window py_value :=
  s <- get ;;
  if decide (is_Some (database_items s !! db_name)) then ret PyNone
  else
    modify (set_database_items <[db_name := {| path := db_path |}]>) ;;;
    modify (fun s => set_progress true (progress_bar_value s) s) ;;;
    modify (set_progress true 0) ;;;
    modify (setText ("Loading " +:+ db_name +:+ "...")) ;;;
    modify (start_loader db_name db_path) ;;;
    ret PyNone.

(** [db_path] is what the file dialog returned, empty when it was cancelled. *)
Definition newSession (db_path : string) : M main_window py_value :=
  if decide (db_path = "") then ret PyNone
  else
    let db_name := basename db_path in
    loadDatabase db_name db_path ;;;
    ret PyNone.

Definition onDatabaseLoaded (db_name : string) (tables : list string) : M main_window py_value :=
  modify (fun s => set_progress false (progress_bar_value s) s) ;;;
  modify (setText ("Loaded " +:+ db_name)) ;;;
  modify (set_treeModel (fun model => model ++ [{| text := db_name; children := tables |}])) ;;;
  ret PyNone.

Definition updateProgressBar (value : Z) : M main_window py_value :=
  modify (fun s => set_progress (progress_visible s) value s) ;;;
  ret PyNone.

Definition scan_query (table_name : string) : string := "SELECT * FROM " +:+ table_name.

Definition table_info_query (table_name : string) : string :=
  "PRAGMA table_info(" +:+ table_name +:+ ")".

(** [setHorizontalHeaderLabels] takes a list of [str]; PyQt5 also takes
    [None], as the empty string, and rejects anything else before it touches
    the widget. *)
Definition as_label {S} (v : sql_value) : M S string :=
  match v with
  | SqlText s => ret s
  | SqlNull => ret ""
  | _ => raise TypeError
  end.

(** Lines 229-231: every cell of every row is set, in order. *)
Definition populate (w : world) (data : list row) (t : table_widget) : table_widget :=
  fold_left
    (fun t '(r, rowData) =>
       fold_left (fun t '(c, item) => setItem r c (py_str w item) t)
                 (imap (fun c item => (c, item)) rowData) t)
    (imap (fun r rowData => (r, rowData)) data) t.

Definition addTab (widget : table_widget) (label : string) (s : main_window) : main_window :=
  set_tabs (fun pages => pages ++ [{| tab_widget := widget; tab_text := label |}])
           (if decide (tabs s = []) then 0 else currentIndex s) s.

Definition setCurrentIndex (i : Z) (s : main_window) : main_window :=
  if decide (0 <= i < Z.of_nat (length (tabs s))) then set_tabs (fun pages => pages) i s else s.

Definition addTableTab (w : world) (db_name table_name : string) : M main_window py_value :=
  s <- get ;;
  match database_items s !! db_name with
  | None => ret PyNone
  | Some db_info =>
      let db_path := path db_info in
      conn <- connect w db_path ;;
      try_finally
        (try_except
           (data <- execute w conn (scan_query table_name) ;;
            columns <- execute w conn (table_info_query table_name) ;;
            let table_widget := setRowCount (length data) QTableWidget in
            let table_widget := setColumnCount (length columns) table_widget in
            column_names <- for_each columns (fun col => index col 1) ;;
            labels <- for_each column_names as_label ;;
            let table_widget := setHorizontalHeaderLabels labels table_widget in
            let table_widget := populate w data table_widget in
            modify (addTab table_widget table_name) ;;;
            modify (fun s => setCurrentIndex (Z.of_nat (length (tabs s)) - 1) s) ;;;
            ret PyNone)
           (fun e =>
              match e with
              | SqliteError msg =>
                  Some (emit (EvPrint ("Error loading table " +:+ table_name +:+ ": " +:+ msg)) ;;;
                        ret PyNone)
              | _ => None
              end))
        (close conn)
  end.

Definition onTreeItemClicked (w : world) (index : tree_index) : M main_window py_value :=
  s <- get ;;
  match index with
  | TopLevel r =>
      match treeModel s !! r with
      | None => raise AttributeError
      | Some item =>
          let db_name := text item in
          modify (setWindowTitle ("Database: " +:+ db_name)) ;;;
          ret PyNone
      end
  | Child parent_row r =>
      match treeModel s !! parent_row with
      | None => raise AttributeError
      | Some parent =>
          match children parent !! r with
          | None => raise AttributeError
          | Some table_name =>
              let db_name := text parent in
              modify (setWindowTitle ("Table: " +:+ table_name +:+ " (" +:+ db_name +:+ ")")) ;;;
              addTableTab w db_name table_name
          end
      end
  end.

Definition closeAllTabs : M main_window py_value :=
  modify (set_tabs (fun _ => []) (-1)) ;;;
  ret PyNone.

(** After a removal Qt keeps the current page when it can and otherwise
    moves to the page that took its place, or to the new last page. *)
Definition removeTab (i : Z) (s : main_window) : main_window :=
  let count := Z.of_nat (length (tabs s)) in
  if decide (0 <= i < count) then
    let current :=
      if decide (i < currentIndex s) then currentIndex s - 1
      else if decide (i = currentIndex s /\ i = count - 1) then i - 1
      else currentIndex s in
    set_tabs (remove_nth (Z.to_nat i)) current s
  else s.

Definition closeTab (i : Z) : M main_window py_value :=
  modify (removeTab i) ;;;
  ret PyNone.

(** ** The event loop *)

(** What the Qt event loop can deliver to the window. *)
Inductive ui_event :=
| NewSessionTriggered (dialog_path : string)
| LoaderProgress (value : Z)
| LoaderFinished (loader : nat) (tables : list string)
| TreeClicked (index : tree_index)
| TabCloseRequested (index : Z)
| CloseAllTabsTriggered.

(** The slot run for an event.  A [finished] signal comes from one of the
    started loaders and reaches the handler that captured its name. *)
Definition dispatch (w : world) (ev : ui_event) : M main_window py_value :=
  match ev with
  | NewSessionTriggered p => newSession p
  | LoaderProgress v => updateProgressBar v
  | LoaderFinished i tables =>
      s <- get ;;
      match loaders s !! i with
      | Some (db_name, _) => onDatabaseLoaded db_name tables
      | None => ret PyNone
      end
  | TreeClicked idx => onTreeItemClicked w idx
  | TabCloseRequested i => closeTab i
  | CloseAllTabsTriggered => closeAllTabs
  end.

Definition state_after {S A} (c : M S A) (s : S) : S := (c s).1.1.
Definition events_of {S A} (c : M S A) (s : S) : list event := (c s).1.2.
Definition outcome_of {S A} (c : M S A) (s : S) : exn + A := (c s).2.

(** The window after a sequence of deliveries, each in the world of its time. *)
Fixpoint deliver (evs : list (world * ui_event)) (s : main_window) : main_window :=
  match evs with
  | [] => s
  | (w, ev) :: rest => deliver rest (state_after (dispatch w ev) s)
  end.

Definition reachable (s : main_window) : Prop :=
  exists evs, s = deliver evs initial_window.

(** ** Observations on a trace *)

Definition progress_values (tr : list event) : list Z :=
  omap (fun ev => match ev with EvProgress v => Some v | _ => None end) tr.

Definition finished_lists (tr : list event) : list (list sql_value) :=
  omap (fun ev => match ev with EvFinished l => Some l | _ => None end) tr.


Definition is_close (ev : event) : bool :=
  match ev with EvClose _ => true | _ => false end.

Definition is_print (ev : event) : bool :=
  match ev with EvPrint _ => true | _ => false end.

(** ** Specification-side definitions *)

(** The progress value as the specification words it: [100 * (idx + 1) / total]
    rounded to the nearest integer (a tie goes to the even neighbour, as with
    Python's [round]). *)
Definition rounded_percentage (idx total : Z) : Z :=
  let a := 100 * (idx + 1) in
  let q := a / total in
  let r := a mod total in
  if 2 * r <? total then q
  else if total <? 2 * r then q + 1
  else if Z.even q then q else q + 1.

(** [[g(x) for x in l]] for a [g] without effects: the first failure wins. *)
Fixpoint traverse {A B} (g : A -> exn + B) (l : list A) : exn + list B :=
  match l with
  | [] => inr []
  | x :: rest =>
      match g x with
      | inl e => inl e
      | inr y =>
          match traverse g rest with
          | inl e => inl e
          | inr ys => inr (y :: ys)
          end
      end
  end.

Definition second_field (col : row) : exn + sql_value :=
  match col !! 1%nat with
  | Some v => inr v
  | None => inl IndexError
  end.

Definition label_text (v : sql_value) : exn + string :=
  match v with
  | SqlText s => inr s
  | SqlNull => inr ""
  | _ => inl TypeError
  end.

(** Lines 225-226 as a pure function: the names read from the metadata rows,
    then accepted as header labels. *)
Definition header_labels (columns : list row) : exn + list string :=
  match traverse second_field columns with
  | inl e => inl e
  | inr column_names => traverse label_text column_names
  end.

(** The grid built by lines 220-231 from the two result sets. *)
Definition build_grid (w : world) (data columns : list row) (names : list string) : table_widget :=
  populate w data
    (setHorizontalHeaderLabels names
       (setColumnCount (length columns) (setRowCount (length data) QTableWidget))).


(** *** Real-valued reading of binary64 *)

Definition bpow (e : Z) : R := powerRZ 2 e.

(** The value of a finite float; the other floats do not occur below. *)
Definition SF2R (f : spec_float) : R :=
  match f with
  | S754_finite s m e => (IZR (if s then Z.neg m else Z.pos m) * bpow e)%R
  | _ => 0%R
  end.

Definition nonneg_float (f : spec_float) : Prop :=
  match f with
  | S754_zero false | S754_finite false _ _ => True
  | _ => False
  end.

(** [z] lies in [[m, m + 1)] at the position [l] says. *)
Definition loc_int (z : R) (m : Z) (l : location) : Prop :=
  match l with
  | loc_Exact => z = IZR m
  | loc_Inexact Lt => (IZR m < z < IZR m + 1 / 2)%R
  | loc_Inexact Eq => (z = IZR m + 1 / 2)%R
  | loc_Inexact Gt => (IZR m + 1 / 2 < z < IZR m + 1)%R
  end.

Definition rec_loc (z : R) (mrs : shr_record) : Prop :=
  loc_int z (shr_m mrs) (loc_of_shr_record mrs).

(** [m] is the integer nearest to [z], the even one on a tie. *)
Definition nearest_even (z : R) (m : Z) : Prop :=
  (IZR m - 1 / 2 <= z <= IZR m + 1 / 2)%R /\
  ((z = IZR m - 1 / 2 \/ z = IZR m + 1 / 2)%R -> Z.even m = true).

(** [F] is the positive real [x] rounded to binary64, to nearest, ties to
    even: [x] lies in the binade [[2^(g-1), 2^g)], and [F] is the nearest
    multiple of the unit in the last place of that binade. *)
Definition rne_spec (x F : R) : Prop :=
  exists g m : Z,
    (bpow (g - 1) <= x < bpow g)%R /\
    nearest_even (x * bpow (- fexp prec emax g)) m /\
    F = (IZR m * bpow (fexp prec emax g))%R.

(** [n] is what line 33 yields when [(idx + 1) / total_tables] is the real [x]:
    [x] rounded to a double [D], [D * 100] rounded to a double [P], and [P]
    truncated. *)
Definition percent_rel (x : R) (n : Z) : Prop :=
  exists D P : R,
    rne_spec x D /\
    ((D = 0 /\ P = 0)%R \/ (0 < D)%R /\ rne_spec (D * 100) P) /\
    (IZR n <= P < IZR n + 1)%R.

(** Line 33 on positive operands. *)
Definition percent (k N : positive) : exn + Z :=
  py_int (py_mul_float_int
            (SFdiv prec emax (S754_finite false k 0) (S754_finite false N 0)) 100).

Definition percent_near (c : positive) : bool :=
  match percent c 100 with
  | inr n => (Z.pos c - 1 <=? n) && (n <=? Z.pos c)
  | inl _ => false
  end.

(** ** Example inputs *)

(** A shop database: two ordinary tables, the second one empty, and a table
    whose name is a reserved word. *)
Definition shop_catalog : list row :=
  [[SqlText "customers"]; [SqlText "orders"]; [SqlText "order"]].

Definition customers_rows : list row :=
  [[SqlInteger 1; SqlText "Ada"]; [SqlInteger 2; SqlText "Grace"]].

Definition customers_columns : list row :=
  [[SqlInteger 0; SqlText "id"; SqlText "INTEGER"; SqlInteger 0; SqlNull; SqlInteger 1];
   [SqlInteger 1; SqlText "name"; SqlText "TEXT"; SqlInteger 0; SqlNull; SqlInteger 0]].

Definition orders_columns : list row :=
  [[SqlInteger 0; SqlText "id"; SqlText "INTEGER"; SqlInteger 0; SqlNull; SqlInteger 1]].

Definition example_str (v : sql_value) : string :=
  match v with
  | SqlNull => "None"
  | SqlInteger n => pretty n
  | SqlText s => s
  | SqlReal _ => "0.0"
  | SqlBlob _ => "b''"
  end.

Definition shop_world : world :=
  {| connect_ok := fun _ => true;
     execute_result := fun _ sql =>
       if String.eqb sql catalog_query then inr shop_catalog
       else if String.eqb sql (scan_query "customers") then inr customers_rows
       else if String.eqb sql (table_info_query "customers") then inr customers_columns
       else if String.eqb sql (scan_query "orders") then inr []
       else if String.eqb sql (table_info_query "orders") then inr orders_columns
       else inl "near order: syntax error";
     py_str := example_str |}.

(** A database file without tables. *)
Definition empty_world : world :=
  {| connect_ok := fun _ => true;
     execute_result := fun _ sql =>
       if String.eqb sql catalog_query then inr [] else inl "no such table";
     py_str := example_str |}.

(** A file that SQLite opens lazily and then rejects at the first statement. *)
Definition not_a_database : world :=
  {| connect_ok := fun _ => true;
     execute_result := fun _ _ => inl "file is not a database";
     py_str := example_str |}.

(** The window once [/data/shop.db] has been opened and listed. *)
Definition shop_session : list (world * ui_event) :=
  [(shop_world, NewSessionTriggered "/data/shop.db");
   (shop_world, LoaderFinished 0 ["customers"; "orders"; "order"])].

Definition shop_window : main_window := deliver shop_session initial_window.

(** The same window with the tables [customers] and [orders] open. *)
Definition two_tabs_window : main_window :=
  deliver [(shop_world, TreeClicked (Child 0 0)); (shop_world, TreeClicked (Child 0 1))]
          shop_window.

(** Deliveries after the registration of [shop.db], among them a second
    attempt to open a file of the same name. *)
Definition later_session : list (world * ui_event) :=
  [(not_a_database, LoaderProgress 50);
   (shop_world, NewSessionTriggered "/tmp/copy/shop.db");
   (shop_world, CloseAllTabsTriggered)].

(** ** Further observations *)

(** The files connected to and the files whose connection was closed, in order. *)
Definition opened (tr : list event) : list string :=
  omap (fun ev => match ev with EvConnect p => Some p | _ => None end) tr.

Definition closed (tr : list event) : list string :=
  omap (fun ev => match ev with EvClose p => Some p | _ => None end) tr.

(** The [progress] signals of a loader run as the event loop delivers them. *)
Definition progress_signals (w : world) (tr : list event) : list (world * ui_event) :=
  map (fun v => (w, LoaderProgress v)) (progress_values tr).

(** One row of a result set as the grid shows it. *)
Definition render_row (w : world) (rowData : row) : list (option string) :=
  map (fun item => Some (py_str w item)) rowData.

(** Loaders and registry entries correspond one to one. *)
Definition registry_inv (s : main_window) : Prop :=
  length (loaders s) = size (database_items s) /\
  (forall db_name db_path,
     (db_name, db_path) ∈ loaders s <->
     database_items s !! db_name = Some {| path := db_path |}).

(** * Properties *)

(** ** Powers of two *)
Lemma bpow_gt_0 e : (0 < bpow e)%R.
Proof. apply powerRZ_lt; lra. Qed.

Lemma bpow_plus a b : bpow (a + b) = (bpow a * bpow b)%R.
Proof. apply powerRZ_add; lra. Qed.

Lemma bpow_0 : bpow 0 = 1%R.
Proof. reflexivity. Qed.

Lemma bpow_1 : bpow 1 = 2%R.
Proof. unfold bpow; simpl; lra. Qed.

Lemma bpow_opp e : (bpow (- e) * bpow e = 1)%R.
Proof. rewrite <- bpow_plus. replace (- e + e) with 0 by lia. apply bpow_0. Qed.

Lemma bpow_IZR n : 0 <= n -> bpow n = IZR (2 ^ n).
Proof.
  intros Hn. unfold bpow.
  rewrite <- (Z2Nat.id n Hn) at 1 2.
  rewrite <- pow_powerRZ, pow_IZR. reflexivity.
Qed.

Lemma bpow_ge_1 n : 0 <= n -> (1 <= bpow n)%R.
Proof.
  intros Hn. rewrite bpow_IZR by assumption.
  apply IZR_le. pose proof (Z.pow_pos_nonneg 2 n). lia.
Qed.

Lemma bpow_le a b : a <= b -> (bpow a <= bpow b)%R.
Proof.
  intros Hab. replace b with (a + (b - a)) by lia. rewrite bpow_plus.
  pose proof (bpow_gt_0 a). pose proof (bpow_ge_1 (b - a) ltac:(lia)). nra.
Qed.

Lemma bpow_lt a b : a < b -> (bpow a < bpow b)%R.
Proof.
  intros Hab. apply Rlt_le_trans with (bpow (a + 1)).
  - rewrite bpow_plus, bpow_1. pose proof (bpow_gt_0 a). lra.
  - apply bpow_le. lia.
Qed.

Lemma bpow_lt_inv a b : (bpow a < bpow b)%R -> a < b.
Proof.
  intros H. destruct (Z_lt_le_dec a b) as [Hlt|Hle]; [assumption|].
  apply bpow_le in Hle. lra.
Qed.

Lemma mag_unique x g g' :
  (bpow (g - 1) <= x < bpow g)%R -> (bpow (g' - 1) <= x < bpow g')%R -> g = g'.
Proof.
  intros [H1 H2] [H3 H4].
  assert (g - 1 < g') by (apply bpow_lt_inv; lra).
  assert (g' - 1 < g) by (apply bpow_lt_inv; lra).
  lia.
Qed.

Lemma mag_le x y g g' :
  (bpow (g - 1) <= x < bpow g)%R -> (bpow (g' - 1) <= y < bpow g')%R -> (x <= y)%R -> g <= g'.
Proof.
  intros [H1 H2] [H3 H4] Hxy.
  assert (g - 1 < g') by (apply bpow_lt_inv; lra). lia.
Qed.

(** ** Number of binary digits *)
Lemma digits2_pos_size p : digits2_pos p = Pos.size p.
Proof. induction p; simpl; congruence. Qed.

Lemma Zdigits2_bounds m :
  0 < m -> 2 ^ (Zdigits2 m - 1) <= m < 2 ^ Zdigits2 m.
Proof.
  destruct m as [|p|p]; try lia. intros _. cbn [Zdigits2].
  rewrite digits2_pos_size.
  pose proof (Pos.size_gt p) as Hgt. pose proof (Pos.size_le p) as Hle.
  assert (Hgt' : Z.pos p < Z.pos (2 ^ Pos.size p)) by exact Hgt.
  assert (Hle' : Z.pos (2 ^ Pos.size p) <= Z.pos p~0) by exact Hle.
  clear Hgt Hle. rename Hgt' into Hgt. rename Hle' into Hle.
  rewrite Pos2Z.inj_pow in Hgt, Hle.
  split; [|exact Hgt].
  rewrite (Pos2Z.inj_xO p) in Hle.
  replace (Z.pos (Pos.size p)) with (Z.pos (Pos.size p) - 1 + 1) in Hle by lia.
  rewrite Z.pow_add_r, Z.pow_1_r in Hle by lia. lia.
Qed.

Lemma Zdigits2_nonneg m : 0 <= Zdigits2 m.
Proof. destruct m; simpl; lia. Qed.

Lemma Zdigits2_unique m d :
  0 < m -> 2 ^ (d - 1) <= m < 2 ^ d -> Zdigits2 m = d.
Proof.
  intros Hm [H1 H2]. pose proof (Zdigits2_bounds m Hm) as [H3 H4].
  pose proof (Zdigits2_nonneg m).
  assert (0 <= d).
  { destruct (Z_lt_le_dec d 0); [|assumption]. rewrite Z.pow_neg_r in H2; lia. }
  assert (Zdigits2 m - 1 < d).
  { apply (Z.pow_lt_mono_r_iff 2); lia. }
  assert (d - 1 < Zdigits2 m).
  { apply (Z.pow_lt_mono_r_iff 2); lia. }
  lia.
Qed.

(** ** Shifting a mantissa to the right *)
Lemma shr_record_of_loc_m m l : shr_m (shr_record_of_loc m l) = m.
Proof. destruct l as [|[]]; reflexivity. Qed.

Lemma loc_of_shr_record_of_loc m l :
  loc_of_shr_record (shr_record_of_loc m l) = l.
Proof. destruct l as [|[]]; reflexivity. Qed.

Lemma shr_1_spec z mrs :
  0 <= shr_m mrs -> rec_loc z mrs ->
  0 <= shr_m (shr_1 mrs) /\ rec_loc (z / 2) (shr_1 mrs).
Proof.
  destruct mrs as [m r s]. unfold rec_loc. cbn [shr_m].
  intros Hm H.
  destruct m as [|[p|p|]|p]; try lia;
    destruct r, s;
    cbn [shr_1 shr_m shr_r shr_s loc_of_shr_record orb loc_int] in H |- *;
    try rewrite (IZR_POS_xO p) in H; try rewrite (IZR_POS_xI p) in H;
    (split; [lia|lra]).
Qed.

Lemma iter_pos_invariant {A : Type} (f : A -> A) (P : Z -> A -> Prop) :
  (forall k a, P k a -> P (k + 1) (f a)) ->
  forall n k a, P k a -> P (k + Z.pos n) (SpecFloat.iter_pos f n a).
Proof.
  intros Hstep. induction n as [n IH|n IH|]; intros k a Ha; cbn [SpecFloat.iter_pos].
  - replace (k + Z.pos n~1) with (k + 1 + Z.pos n + Z.pos n) by lia.
    apply IH, IH, Hstep, Ha.
  - replace (k + Z.pos n~0) with (k + Z.pos n + Z.pos n) by lia.
    apply IH, IH, Ha.
  - apply Hstep, Ha.
Qed.

Lemma bpow_opp_succ k : bpow (- (k + 1)) = (bpow (- k) / 2)%R.
Proof.
  replace (- (k + 1)) with (- k + - 1) by lia. rewrite bpow_plus.
  unfold bpow at 2. simpl. lra.
Qed.

Lemma shr_spec x mrs e n :
  0 <= shr_m mrs -> rec_loc (x * bpow (- e)) mrs ->
  let '(mrs', e') := shr mrs e n in
  e' = e + Z.max n 0 /\ 0 <= shr_m mrs' /\ rec_loc (x * bpow (- e')) mrs'.
Proof.
  intros Hm H. destruct n as [|p|p]; cbn [shr].
  - split; [lia|]. split; assumption.
  - split; [lia|].
    apply (iter_pos_invariant shr_1
             (fun k a => 0 <= shr_m a /\ rec_loc (x * bpow (- k)) a)).
    + intros k a [Ha1 Ha2]. rewrite bpow_opp_succ.
      replace (x * (bpow (- k) / 2))%R with (x * bpow (- k) / 2)%R by lra.
      apply shr_1_spec; assumption.
    + split; assumption.
  - split; [lia|]. split; assumption.
Qed.

Lemma shr_fexp_spec x m e l :
  0 <= m -> loc_int (x * bpow (- e)) m l ->
  let '(mrs', e') := shr_fexp prec emax m e l in
  e' = Z.max e (fexp prec emax (Zdigits2 m + e)) /\
  0 <= shr_m mrs' /\ rec_loc (x * bpow (- e')) mrs'.
Proof.
  intros Hm H. unfold shr_fexp.
  pose proof (shr_spec x (shr_record_of_loc m l) e
                (fexp prec emax (Zdigits2 m + e) - e)) as Hs.
  destruct (shr _ _ _) as [mrs' e'].
  destruct Hs as (He & Hm' & Hl).
  - rewrite shr_record_of_loc_m. assumption.
  - unfold rec_loc. rewrite shr_record_of_loc_m, loc_of_shr_record_of_loc. assumption.
  - split; [lia|]. split; assumption.
Qed.

(** ** Rounding to nearest, ties to even *)
Lemma round_nearest_even_spec z m l :
  loc_int z m l -> nearest_even z (round_nearest_even m l).
Proof.
  unfold nearest_even. destruct l as [|[]]; cbn [loc_int round_nearest_even]; intros H.
  - subst z. split; [lra|]. intros [E|E]; lra.
  - destruct (Z.even m) eqn:Em.
    + split; [lra|]. intros _. assumption.
    + rewrite plus_IZR. split; [lra|]. intros _.
      replace (m + 1) with (Z.succ m) by lia. rewrite Z.even_succ, <- Z.negb_even, Em.
      reflexivity.
  - split; [lra|]. intros [E|E]; lra.
  - rewrite plus_IZR. split; [lra|]. intros [E|E]; lra.
Qed.

Lemma round_nearest_even_nonneg m l : 0 <= m -> 0 <= round_nearest_even m l.
Proof. destruct l as [|[]]; cbn; try destruct (Z.even m); lia. Qed.

Lemma nearest_even_mono z z' m m' :
  nearest_even z m -> nearest_even z' m' -> (z <= z')%R -> m <= m'.
Proof.
  intros [[H1 H2] He] [[H3 H4] He'] Hz.
  destruct (Z_le_gt_dec m m') as [|Hgt]; [assumption|exfalso].
  assert (Hm : (IZR m' + 1 <= IZR m)%R).
  { rewrite <- plus_IZR. apply IZR_le. lia. }
  assert (Em : Z.even m = true) by (apply He; left; lra).
  assert (Em' : Z.even m' = true) by (apply He'; right; lra).
  assert (m = m' + 1).
  { apply eq_IZR. rewrite plus_IZR. lra. }
  subst m. replace (m' + 1) with (Z.succ m') in Em by lia.
  rewrite Z.even_succ, <- Z.negb_even, Em' in Em. discriminate.
Qed.

Lemma nearest_even_IZR n m : nearest_even (IZR n) m -> m = n.
Proof.
  intros [[H1 H2] _].
  assert (m - 1 < n) by (apply lt_IZR; rewrite minus_IZR; lra).
  assert (n - 1 < m) by (apply lt_IZR; rewrite minus_IZR; lra).
  lia.
Qed.

Lemma nearest_even_of_IZR n : nearest_even (IZR n) n.
Proof. split; [lra|]. intros [E|E]; lra. Qed.

(** ** From located mantissas to rounded values *)
Lemma unscale x e : (x * bpow (- e) * bpow e = x)%R.
Proof. rewrite Rmult_assoc, bpow_opp. lra. Qed.

Lemma scaled_bounds x e lo hi :
  (lo <= x * bpow (- e) < hi)%R -> (lo * bpow e <= x < hi * bpow e)%R.
Proof.
  intros [H1 H2]. pose proof (bpow_gt_0 e) as Hb. pose proof (unscale x e) as Hx.
  set (z := (x * bpow (- e))%R) in *. clearbody z. subst x. nra.
Qed.

Lemma scale_bounds x e lo hi :
  (lo * bpow e <= x < hi * bpow e)%R -> (lo <= x * bpow (- e) < hi)%R.
Proof.
  intros [H1 H2]. pose proof (bpow_gt_0 e) as Hb. pose proof (unscale x e) as Hx.
  set (z := (x * bpow (- e))%R) in *. clearbody z. subst x. nra.
Qed.

Lemma loc_int_bounds z m l : loc_int z m l -> (IZR m <= z < IZR m + 1)%R.
Proof. destruct l as [|[]]; cbn [loc_int]; lra. Qed.

Lemma fexp_eq g : fexp prec emax g = Z.max (g - 53) (-1074).
Proof. reflexivity. Qed.

Lemma Zpow_le_inv a b : 0 <= b -> 2 ^ a <= 2 ^ b -> a <= b.
Proof. intros Hb H. apply (Z.pow_le_mono_r_iff 2); lia. Qed.

(** A located non-negative mantissa determines the magnitude of the value. *)
Lemma located_mag x m e l :
  0 < m -> loc_int (x * bpow (- e)) m l ->
  (bpow (Zdigits2 m + e - 1) <= x < bpow (Zdigits2 m + e))%R.
Proof.
  intros Hm Hl. apply loc_int_bounds in Hl.
  pose proof (Zdigits2_bounds m Hm) as [H1 H2].
  assert (Hd : 1 <= Zdigits2 m).
  { destruct m; try lia. cbn. lia. }
  replace (Zdigits2 m + e - 1) with (Zdigits2 m - 1 + e) by lia.
  rewrite !bpow_plus. apply scaled_bounds.
  rewrite (bpow_IZR (Zdigits2 m - 1)), (bpow_IZR (Zdigits2 m)) by lia. split.
  - apply Rle_trans with (IZR m); [apply IZR_le; lia | lra].
  - apply Rlt_le_trans with (IZR m + 1)%R; [lra|].
    rewrite <- plus_IZR. apply IZR_le. lia.
Qed.

Lemma shr_nonpos mrs e n : n <= 0 -> shr mrs e n = (mrs, e).
Proof. destruct n; try lia; reflexivity. Qed.

Lemma binary_round_aux_spec x m e l g :
  0 <= m -> loc_int (x * bpow (- e)) m l ->
  (bpow (g - 1) <= x < bpow g)%R -> e <= fexp prec emax g -> g <= 1023 ->
  nonneg_float (binary_round_aux prec emax false m e l) /\
  rne_spec x (SF2R (binary_round_aux prec emax false m e l)).
Proof.
  intros Hm Hl Hg He Hov.
  assert (Hd : fexp prec emax (Zdigits2 m + e) = fexp prec emax g).
  { destruct (Z.eq_dec m 0) as [->|Hm0].
    - cbn [Zdigits2]. apply loc_int_bounds in Hl.
      assert (Hx : (x < bpow e)%R).
      { pose proof (scaled_bounds x e 0 1 ltac:(simpl in Hl; lra)). lra. }
      assert (g - 1 < e) by (apply bpow_lt_inv; lra).
      rewrite !fexp_eq in *. lia.
    - f_equal. apply (mag_unique x); [|assumption].
      apply located_mag with l; [lia|assumption]. }
  unfold binary_round_aux.
  pose proof (shr_fexp_spec x m e l Hm Hl) as H1.
  destruct (shr_fexp prec emax m e l) as [mrs1 e1].
  destruct H1 as (He1 & Hm1 & Hl1).
  rewrite Hd in He1. assert (e1 = fexp prec emax g) by lia. clear He1.
  set (m2 := round_nearest_even (shr_m mrs1) (loc_of_shr_record mrs1)).
  assert (Hn : nearest_even (x * bpow (- e1)) m2) by (apply round_nearest_even_spec, Hl1).
  assert (Hm2 : 0 <= m2) by (apply round_nearest_even_nonneg, Hm1).
  assert (Hspec : rne_spec x (IZR m2 * bpow e1)).
  { exists g, m2. subst e1. auto. }
  set (k := Z.max (g - e1) 0).
  assert (Hk : m2 <= 2 ^ k).
  { apply (nearest_even_mono (x * bpow (- e1)) (IZR (2 ^ k))); [assumption| |].
    - apply nearest_even_of_IZR.
    - rewrite <- bpow_IZR by lia.
      assert (x * bpow (- e1) < bpow (g - e1))%R.
      { apply scale_bounds with (lo := 0%R). rewrite <- bpow_plus.
        replace (g - e1 + e1) with g by lia.
        pose proof (bpow_gt_0 (g - 1)). lra. }
      pose proof (bpow_le (g - e1) k ltac:(lia)). lra. }
  clearbody m2. unfold shr_fexp.
  rewrite fexp_eq in H. rewrite fexp_eq.
  destruct (Z_le_gt_dec (Z.max (Zdigits2 m2 + e1 - 53) (-1074) - e1) 0) as [Hn2|Hn2].
  - rewrite shr_nonpos by assumption. cbn [shr_record_of_loc shr_m].
    destruct m2 as [|p|p]; try lia.
    + split; [exact I|]. cbn [SF2R].
      replace 0%R with (IZR 0 * bpow e1)%R by lra. exact Hspec.
    + replace (e1 <=? emax - prec) with true
        by (symmetry; apply Z.leb_le; unfold emax, prec; lia).
      split; [exact I|]. exact Hspec.
  - assert (Hpos : 0 < m2).
    { destruct (Z.eq_dec m2 0) as [->|]; [cbn [Zdigits2] in Hn2|]; lia. }
    pose proof (Zdigits2_bounds m2 Hpos) as [Hb1 Hb2].
    assert (Hd2 : Zdigits2 m2 - 1 <= k) by (apply Zpow_le_inv; lia).
    assert (Hk53 : k = 53) by lia.
    assert (Hd54 : Zdigits2 m2 - 1 = 53) by lia.
    rewrite Hd54 in Hb1. rewrite Hk53 in Hk.
    assert (Hm2' : m2 = 2 ^ 53) by lia.
    replace (Z.max (Zdigits2 m2 + e1 - 53) (-1074) - e1) with 1 by lia.
    subst m2. change (2 ^ 53) with 9007199254740992 in *. cbn.
    replace (e1 + 1 <=? emax - prec) with true
      by (symmetry; apply Z.leb_le; unfold emax, prec; lia).
    split; [exact I|]. cbn [SF2R].
    replace (IZR 4503599627370496 * bpow (e1 + 1))%R
      with (IZR 9007199254740992 * bpow e1)%R; [exact Hspec|].
    rewrite bpow_plus, bpow_1. lra.
Qed.

(** ** The rounding specification is monotone *)
Lemma nearest_even_le_IZR z m n : nearest_even z m -> (z <= IZR n)%R -> m <= n.
Proof. intros Hm Hz. apply (nearest_even_mono z (IZR n)); auto using nearest_even_of_IZR. Qed.

Lemma nearest_even_ge_IZR z m n : nearest_even z m -> (IZR n <= z)%R -> n <= m.
Proof. intros Hm Hz. apply (nearest_even_mono (IZR n) z); auto using nearest_even_of_IZR. Qed.

Lemma rne_spec_mono x y F G :
  rne_spec x F -> rne_spec y G -> (x <= y)%R -> (F <= G)%R.
Proof.
  intros (g & m & Hg & Hn & ->) (g' & m' & Hg' & Hn' & ->) Hxy.
  pose proof (mag_le x y g g' Hg Hg' Hxy) as Hgg.
  pose proof (fexp_eq g) as He. pose proof (fexp_eq g') as He'.
  set (e := fexp prec emax g) in *. set (e' := fexp prec emax g') in *.
  destruct (Z.eq_dec e e') as [Heq|Hne].
  - rewrite <- Heq in *.
    assert (m <= m').
    { apply (nearest_even_mono (x * bpow (- e)) (y * bpow (- e))); try assumption.
      pose proof (bpow_gt_0 (- e)). nra. }
    pose proof (bpow_gt_0 e). apply IZR_le in H. nra.
  - set (K := Z.max g e).
    assert (H1 : (IZR m * bpow e <= bpow K)%R).
    { assert (m <= 2 ^ (K - e)).
      { apply (nearest_even_le_IZR (x * bpow (- e))); [assumption|].
        rewrite <- bpow_IZR by lia.
        assert (x * bpow (- e) < bpow (g - e))%R.
        { apply scale_bounds with (lo := 0%R). rewrite <- bpow_plus.
          replace (g - e + e) with g by lia.
          pose proof (bpow_gt_0 (g - 1)). lra. }
        pose proof (bpow_le (g - e) (K - e) ltac:(lia)). lra. }
      apply IZR_le in H. rewrite <- bpow_IZR in H by lia.
      replace (bpow K) with (bpow (K - e) * bpow e)%R
        by (rewrite <- bpow_plus; f_equal; lia).
      pose proof (bpow_gt_0 e). nra. }
    assert (H2 : (bpow (g' - 1) <= IZR m' * bpow e')%R).
    { assert (2 ^ 52 <= m').
      { apply (nearest_even_ge_IZR (y * bpow (- e'))); [assumption|].
        rewrite <- bpow_IZR by lia.
        apply scale_bounds with (hi := bpow (g' - e')). rewrite <- !bpow_plus.
        replace (52 + e') with (g' - 1) by lia.
        replace (g' - e' + e') with g' by lia. lra. }
      apply IZR_le in H. rewrite <- bpow_IZR in H by lia.
      replace (bpow (g' - 1)) with (bpow 52 * bpow e')%R
        by (rewrite <- bpow_plus; f_equal; lia).
      pose proof (bpow_gt_0 e'). nra. }
    pose proof (bpow_le K (g' - 1) ltac:(lia)). lra.
Qed.

Lemma rne_spec_unique x F G : rne_spec x F -> rne_spec x G -> F = G.
Proof.
  intros HF HG.
  pose proof (rne_spec_mono x x F G HF HG ltac:(lra)).
  pose proof (rne_spec_mono x x G F HG HF ltac:(lra)). lra.
Qed.

Lemma rne_spec_nonneg x F : rne_spec x F -> (0 <= F)%R.
Proof.
  intros (g & m & Hg & Hn & ->).
  assert (0 <= m).
  { apply (nearest_even_ge_IZR (x * bpow (- fexp prec emax g))); [assumption|].
    pose proof (bpow_gt_0 (g - 1)). pose proof (bpow_gt_0 (- fexp prec emax g)). nra. }
  apply IZR_le in H. pose proof (bpow_gt_0 (fexp prec emax g)). nra.
Qed.

Lemma rne_spec_exact x F g n :
  (bpow (g - 1) <= x < bpow g)%R -> (x * bpow (- fexp prec emax g) = IZR n)%R ->
  rne_spec x F -> F = x.
Proof.
  intros Hg Hx HF. apply (rne_spec_unique x); [assumption|].
  exists g, n. split; [assumption|]. split.
  - rewrite Hx. apply nearest_even_of_IZR.
  - rewrite <- Hx. symmetry. apply unscale.
Qed.

(** ** Division of two integers *)
Lemma new_location_spec n q r :
  0 < n -> 0 <= r < n ->
  loc_int (IZR q + IZR r / IZR n) q (new_location n r).
Proof.
  intros Hn Hr.
  assert (HnR : (0 < IZR n)%R) by (apply IZR_lt; lia).
  set (rho := (IZR r / IZR n)%R).
  assert (Hrho : (rho * IZR n = IZR r)%R) by (unfold rho; field; lra).
  clearbody rho.
  assert (Hlt : (rho < 1)%R).
  { assert (IZR r < IZR n)%R by (apply IZR_lt; lia). nra. }
  assert (Hzero : r = 0 -> rho = 0%R) by (intros E; rewrite E in Hrho; nra).
  assert (Hpos : r <> 0 -> (0 < rho)%R).
  { intros E. assert (0 < IZR r)%R by (apply IZR_lt; lia). nra. }
  unfold new_location. destruct (Z.even n) eqn:En.
  - unfold new_location_even.
    destruct (Z.eqb_spec r 0) as [Hr0|Hr0]; [cbn [loc_int]; rewrite Hzero; [lra|assumption]|].
    specialize (Hpos Hr0).
    destruct (Z.compare_spec (2 * r) n) as [E|E|E]; cbn [loc_int].
    + assert (2 * IZR r = IZR n)%R by (rewrite <- E, mult_IZR; reflexivity). nra.
    + apply IZR_lt in E. rewrite mult_IZR in E. nra.
    + apply IZR_lt in E. rewrite mult_IZR in E. nra.
  - unfold new_location_odd.
    destruct (Z.eqb_spec r 0) as [Hr0|Hr0]; [cbn [loc_int]; rewrite Hzero; [lra|assumption]|].
    specialize (Hpos Hr0).
    assert (Hodd : 2 * r <> n).
    { intros <-. rewrite Z.even_mul in En. discriminate. }
    destruct (Z.compare_spec (2 * r + 1) n) as [E|E|E]; cbn [loc_int].
    + assert (E' : 2 * r < n) by lia. apply IZR_lt in E'. rewrite mult_IZR in E'. nra.
    + assert (E' : 2 * r < n) by lia. apply IZR_lt in E'. rewrite mult_IZR in E'. nra.
    + assert (E' : n < 2 * r) by lia. apply IZR_lt in E'. rewrite mult_IZR in E'. nra.
Qed.

Lemma quotient_mag a b :
  0 < a -> 0 < b ->
  exists g, (bpow (g - 1) <= IZR a / IZR b < bpow g)%R /\
            Zdigits2 a - Zdigits2 b <= g.
Proof.
  intros Ha Hb.
  pose proof (Zdigits2_bounds a Ha) as [Ha1 Ha2].
  pose proof (Zdigits2_bounds b Hb) as [Hb1 Hb2].
  assert (Hda : 1 <= Zdigits2 a) by (destruct a; try lia; cbn; lia).
  assert (Hdb : 1 <= Zdigits2 b) by (destruct b; try lia; cbn; lia).
  apply IZR_le in Ha1, Hb1. apply IZR_lt in Ha2, Hb2.
  rewrite <- bpow_IZR in Ha1, Ha2, Hb1, Hb2 by lia.
  set (d := Zdigits2 a - Zdigits2 b).
  set (x := (IZR a / IZR b)%R).
  assert (HbR : (0 < IZR b)%R) by (apply IZR_lt; lia).
  assert (Hx : (x * IZR b = IZR a)%R) by (unfold x; field; lra).
  assert (Hx0 : (0 < x)%R).
  { assert (0 < IZR a)%R by (apply IZR_lt; lia). nra. }
  assert (Hlo : (bpow (d - 1) < x)%R).
  { assert (E : (bpow (d - 1) * bpow (Zdigits2 b) = bpow (Zdigits2 a - 1))%R)
      by (rewrite <- bpow_plus; f_equal; unfold d; lia).
    pose proof (bpow_gt_0 (d - 1)). nra. }
  assert (Hhi : (x < bpow (d + 1))%R).
  { assert (E : (bpow (d + 1) * bpow (Zdigits2 b - 1) = bpow (Zdigits2 a))%R)
      by (rewrite <- bpow_plus; f_equal; unfold d; lia).
    pose proof (bpow_gt_0 (d + 1)). nra. }
  destruct (Rlt_le_dec x (bpow d)) as [Hd|Hd].
  - exists d. split; [lra|lia].
  - exists (d + 1). replace (d + 1 - 1) with d by lia. split; [lra|lia].
Qed.

Lemma SFdiv_int_spec (a b : positive) :
  (a <= b)%positive ->
  let r := SFdiv prec emax (S754_finite false a 0) (S754_finite false b 0) in
  nonneg_float r /\ rne_spec (IZR (Z.pos a) / IZR (Z.pos b)) (SF2R r).
Proof.
  intros Hab r. subst r. cbn [SFdiv xorb].
  unfold SFdiv_core_binary.
  set (d := Zdigits2 (Z.pos a) + 0 - (Zdigits2 (Z.pos b) + 0)).
  set (e' := Z.min (fexp prec emax d) (0 - 0)).
  assert (He' : e' <= 0) by (unfold e'; lia).
  assert (Hm' : match 0 - 0 - e' with
                | 0 => Z.pos a
                | Z.pos _ => Z.shiftl (Z.pos a) (0 - 0 - e')
                | Z.neg _ => 0
                end = Z.pos a * 2 ^ (- e')).
  { replace (0 - 0 - e') with (- e') by lia.
    destruct (- e') eqn:E; try lia.
    rewrite Z.shiftl_mul_pow2 by lia. reflexivity. }
  rewrite Hm'.
  pose proof (Z_div_mod (Z.pos a * 2 ^ (- e')) (Z.pos b) ltac:(lia)) as Hdiv.
  destruct (Z.div_eucl (Z.pos a * 2 ^ (- e')) (Z.pos b)) as [q rm].
  destruct Hdiv as [Hq Hrm].
  destruct (quotient_mag (Z.pos a) (Z.pos b)) as (g & Hg & Hdg); try lia.
  set (x := (IZR (Z.pos a) / IZR (Z.pos b))%R) in *.
  assert (HbR : (0 < IZR (Z.pos b))%R) by (apply IZR_lt; lia).
  assert (Hq0 : 0 <= q).
  { assert (0 <= Z.pos a * 2 ^ (- e')) by (pose proof (Z.pow_nonneg 2 (- e')); lia).
    destruct (Z_le_gt_dec 0 q); [assumption|nia]. }
  apply binary_round_aux_spec with (g := g); try assumption.
  - replace (x * bpow (- e'))%R with (IZR q + IZR rm / IZR (Z.pos b))%R.
    + apply new_location_spec; lia.
    + rewrite bpow_IZR by lia. unfold x.
      apply IZR_eq in Hq. rewrite plus_IZR, !mult_IZR in Hq.
      field_simplify_eq; lra.
  - unfold e', d. rewrite !fexp_eq. unfold d in Hdg. lia.
  - assert (x <= 1)%R.
    { assert (IZR (Z.pos a) <= IZR (Z.pos b))%R by (apply IZR_le; lia).
      assert (x * IZR (Z.pos b) = IZR (Z.pos a))%R by (unfold x; field; lra). nra. }
    assert (g - 1 < 1) by (apply bpow_lt_inv; rewrite bpow_1; lra). lia.
Qed.

(** ** Multiplication by 100 and truncation *)
Lemma float_of_int_100 : float_of_int 100 = S754_finite false 7036874417766400 (-46).
Proof. reflexivity. Qed.

Lemma rne_spec_1 : rne_spec 1 1.
Proof.
  exists 1, (2 ^ 52). rewrite fexp_eq. split; [|split].
  - rewrite bpow_1. change (1 - 1) with 0. rewrite bpow_0. lra.
  - replace (1 * bpow (- Z.max (1 - 53) (-1074)))%R with (IZR (2 ^ 52)).
    + apply nearest_even_of_IZR.
    + rewrite <- bpow_IZR by lia. change (- Z.max (1 - 53) (-1074)) with 52. lra.
  - rewrite <- bpow_IZR by lia. change (Z.max (1 - 53) (-1074)) with (- (52)).
    rewrite Rmult_comm, bpow_opp. reflexivity.
Qed.

Lemma SFmul_100_spec r :
  nonneg_float r -> (SF2R r <= 1)%R ->
  let p := SFmul prec emax r (float_of_int 100) in
  nonneg_float p /\
  ((SF2R r = 0 /\ SF2R p = 0)%R \/ (0 < SF2R r)%R /\ rne_spec (SF2R r * 100) (SF2R p)).
Proof.
  intros Hr Hle p. subst p. rewrite float_of_int_100.
  destruct r as [[]|[]| |[] m e]; try contradiction.
  { cbn. split; [exact I|]. left. split; reflexivity. }
  cbn [SFmul xorb SF2R] in *.
  set (M := (m * 7036874417766400)%positive).
  assert (HM : Z.pos M = Z.pos m * (100 * 2 ^ 46)) by (unfold M; lia).
  assert (Hx0 : (0 < IZR (Z.pos m) * bpow e)%R).
  { pose proof (bpow_gt_0 e). assert (0 < IZR (Z.pos m))%R by (apply IZR_lt; lia). nra. }
  assert (Hl : loc_int (IZR (Z.pos m) * bpow e * 100 * bpow (- (e + -46))) (Z.pos M) loc_Exact).
  { cbn [loc_int]. rewrite HM, !mult_IZR.
    replace (- (e + -46)) with (- e + 46) by lia.
    rewrite bpow_plus, (bpow_IZR 46) by lia.
    transitivity (IZR (Z.pos m) * (100 * IZR (2 ^ 46)) * (bpow (- e) * bpow e))%R;
      [ring | rewrite bpow_opp; ring]. }
  pose proof (located_mag _ (Z.pos M) _ _ ltac:(lia) Hl) as Hg.
  assert (Hdig : 53 <= Zdigits2 (Z.pos M)).
  { pose proof (Zdigits2_bounds (Z.pos M) ltac:(lia)) as [_ Hb].
    destruct (Z_le_gt_dec 53 (Zdigits2 (Z.pos M))) as [|Hlt]; [assumption|exfalso].
    assert (2 ^ Zdigits2 (Z.pos M) <= 2 ^ 52).
    { apply Z.pow_le_mono_r; lia. }
    assert (2 ^ 52 <= Z.pos M) by (rewrite HM; change (2 ^ 52) with (1 * 2 ^ 52); nia).
    lia. }
  destruct (binary_round_aux_spec (IZR (Z.pos m) * bpow e * 100) (Z.pos M) (e + -46)
              loc_Exact (Zdigits2 (Z.pos M) + (e + -46))) as [H1 H2];
    try assumption; try lia.
  - rewrite fexp_eq. lia.
  - assert (Zdigits2 (Z.pos M) + (e + -46) - 1 < 7); [|lia].
    apply bpow_lt_inv.
    replace (bpow 7) with 128%R by (rewrite (bpow_IZR 7) by lia; reflexivity). lra.
  - split; [exact H1|]. right. split; assumption.
Qed.

Lemma py_int_floor f :
  nonneg_float f ->
  exists n, py_int f = inr n /\ (IZR n <= SF2R f < IZR n + 1)%R.
Proof.
  destruct f as [[]|[]| |[] m e]; try contradiction; intros _.
  - exists 0. cbn. split; [reflexivity|lra].
  - cbn [py_int cond_Zopp SF2R].
    destruct e as [|p|p].
    + exists (Z.pos m). split; [reflexivity|]. rewrite bpow_0. lra.
    + exists (Z.pos m * 2 ^ Z.pos p). split.
      * rewrite Z.shiftl_mul_pow2 by lia. reflexivity.
      * rewrite mult_IZR, <- bpow_IZR by lia. lra.
    + exists (Z.pos m / 2 ^ Z.pos p). split.
      * rewrite Z.shiftr_div_pow2 by lia. reflexivity.
      * pose proof (Z.pow_pos_nonneg 2 (Z.pos p) ltac:(lia) ltac:(lia)) as Hp.
        pose proof (Z.mul_div_le (Z.pos m) _ Hp) as H1.
        pose proof (Z.mul_succ_div_gt (Z.pos m) _ Hp) as H2.
        apply IZR_le in H1. apply IZR_lt in H2.
        rewrite mult_IZR in H1. rewrite mult_IZR, succ_IZR in H2.
        rewrite <- bpow_IZR in H1, H2 by lia.
        change (Z.neg p) with (- Z.pos p).
        pose proof (bpow_opp (Z.pos p)) as Ho. pose proof (bpow_gt_0 (Z.pos p)).
        pose proof (bpow_gt_0 (- Z.pos p)).
        set (B := bpow (Z.pos p)) in *. set (B' := bpow (- Z.pos p)) in *.
        set (q := IZR (Z.pos m / 2 ^ Z.pos p)) in *. set (mm := IZR (Z.pos m)) in *.
        clearbody B B' q mm.
        assert (E1 : (B' * (B * q) = q)%R) by (rewrite <- Rmult_assoc, Ho; ring).
        assert (E2 : (B' * (B * (q + 1)) = q + 1)%R) by (rewrite <- Rmult_assoc, Ho; ring).
        assert (B' * (B * q) <= B' * mm)%R by (apply Rmult_le_compat_l; lra).
        assert (B' * mm < B' * (B * (q + 1)))%R by (apply Rmult_lt_compat_l; lra).
        lra.
Qed.

(** ** The percentage of line 33 *)
Lemma percent_computes k N :
  (k <= N)%positive ->
  exists n, percent k N = inr n /\ percent_rel (IZR (Z.pos k) / IZR (Z.pos N)) n.
Proof.
  intros Hk. unfold percent, py_mul_float_int.
  destruct (SFdiv_int_spec k N Hk) as [Hd1 Hd2].
  set (d := SFdiv prec emax (S754_finite false k 0) (S754_finite false N 0)) in *.
  assert (Hle : (SF2R d <= 1)%R).
  { apply (rne_spec_mono (IZR (Z.pos k) / IZR (Z.pos N)) 1); auto using rne_spec_1.
    assert (0 < IZR (Z.pos N))%R by (apply IZR_lt; lia).
    assert (IZR (Z.pos k) <= IZR (Z.pos N))%R by (apply IZR_le; lia).
    apply Rmult_le_reg_r with (IZR (Z.pos N)); [assumption|].
    unfold Rdiv. rewrite Rmult_assoc, Rinv_l by lra. lra. }
  destruct (SFmul_100_spec d Hd1 Hle) as [Hp1 Hp2].
  destruct (py_int_floor _ Hp1) as (n & Hn1 & Hn2).
  exists n. split; [assumption|].
  exists (SF2R d), (SF2R (SFmul prec emax d (float_of_int 100))). auto.
Qed.

Lemma percent_rel_mono x y n n' :
  percent_rel x n -> percent_rel y n' -> (x <= y)%R -> n <= n'.
Proof.
  intros (D & P & HD & HP & Hn) (D' & P' & HD' & HP' & Hn') Hxy.
  pose proof (rne_spec_mono _ _ _ _ HD HD' Hxy) as HDD.
  assert (HPP : (P <= P')%R).
  { destruct HP as [[HD0 HP0]|[HD0 HP]], HP' as [[HD0' HP0']|[HD0' HP']].
    - lra.
    - apply rne_spec_nonneg in HP'. lra.
    - lra.
    - apply (rne_spec_mono (D * 100) (D' * 100)); auto; lra. }
  destruct (Z_le_gt_dec n n') as [|Hgt]; [assumption|exfalso].
  assert (IZR n' + 1 <= IZR n)%R by (rewrite <- plus_IZR; apply IZR_le; lia).
  lra.
Qed.

Lemma percent_rel_nonneg x n : percent_rel x n -> 0 <= n.
Proof.
  intros (D & P & HD & HP & Hn).
  assert (0 <= P)%R.
  { destruct HP as [[_ ->]|[_ HP]]; [lra|]. apply rne_spec_nonneg in HP. assumption. }
  destruct (Z_le_gt_dec 0 n) as [|Hgt]; [assumption|exfalso].
  assert (IZR n + 1 <= 0)%R by (rewrite <- plus_IZR; apply IZR_le; lia).
  lra.
Qed.

Lemma percent_rel_1 n : percent_rel 1 n -> n = 100.
Proof.
  intros (D & P & HD & HP & Hn).
  assert (D = 1%R) by (apply (rne_spec_unique 1); auto using rne_spec_1). subst D.
  destruct HP as [[HD0 _]|[_ HP]]; [lra|].
  assert (P = (1 * 100)%R).
  { apply (rne_spec_exact _ _ 7 (100 * 2 ^ 46)); [| |assumption].
    - rewrite (bpow_IZR 7), (bpow_IZR (7 - 1)) by lia.
      change (2 ^ 7) with 128. change (2 ^ (7 - 1)) with 64. lra.
    - rewrite fexp_eq. change (- Z.max (7 - 53) (-1074)) with 46.
      rewrite (bpow_IZR 46), mult_IZR by lia. lra. }
  subst P.
  assert (n - 1 < 100) by (apply lt_IZR; rewrite minus_IZR; lra).
  assert (99 < n) by (apply lt_IZR; lra).
  lia.
Qed.

Lemma percent_full N : percent N N = inr 100.
Proof.
  destruct (percent_computes N N ltac:(lia)) as (n & Hn & Hrel).
  replace (IZR (Z.pos N) / IZR (Z.pos N))%R with 1%R in Hrel.
  - apply percent_rel_1 in Hrel. congruence.
  - assert (0 < IZR (Z.pos N))%R by (apply IZR_lt; lia). field. lra.
Qed.

Lemma percent_mono k k' N n n' :
  (k <= k')%positive -> (k' <= N)%positive ->
  percent k N = inr n -> percent k' N = inr n' -> n <= n'.
Proof.
  intros Hkk HkN Hn Hn'.
  destruct (percent_computes k N ltac:(lia)) as (m & Hm & Hrel).
  destruct (percent_computes k' N HkN) as (m' & Hm' & Hrel').
  assert (m = n) by congruence. assert (m' = n') by congruence. subst m m'.
  apply (percent_rel_mono _ _ _ _ Hrel Hrel').
  assert (0 < IZR (Z.pos N))%R by (apply IZR_lt; lia).
  assert (IZR (Z.pos k) <= IZR (Z.pos k'))%R by (apply IZR_le; lia).
  unfold Rdiv. apply Rmult_le_compat_r; [|assumption].
  apply Rlt_le, Rinv_0_lt_compat. assumption.
Qed.

Example percent_2_3 : percent 2 3 = inr 66.
Proof. vm_compute. reflexivity. Qed.
Example percent_29_100 : percent 29 100 = inr 28.
Proof. vm_compute. reflexivity. Qed.

Lemma percent_near_all :
  forallb percent_near (map Pos.of_nat (seq 1 100)) = true.
Proof. vm_compute. reflexivity. Qed.

Lemma percent_hundredths c :
  1 <= c <= 100 ->
  exists n, percent (Z.to_pos c) 100 = inr n /\ c - 1 <= n <= c.
Proof.
  intros Hc. pose proof percent_near_all as H.
  rewrite forallb_forall in H.
  specialize (H (Z.to_pos c)).
  assert (Hin : In (Z.to_pos c) (map Pos.of_nat (seq 1 100))).
  { apply in_map_iff. exists (Z.to_nat c). split.
    - apply Pos2Z.inj. lia.
    - apply in_seq. lia. }
  specialize (H Hin). unfold percent_near in H.
  destruct (percent (Z.to_pos c) 100) as [e|n]; [discriminate|].
  exists n. split; [reflexivity|].
  apply andb_true_iff in H. destruct H as [H1 H2].
  apply Z.leb_le in H1, H2. rewrite Z2Pos.id in H1, H2 by lia. lia.
Qed.

Lemma percent_bounds k N n :
  (k <= N)%positive -> percent k N = inr n ->
  100 * Z.pos k / Z.pos N - 1 <= n <= (100 * Z.pos k + Z.pos N - 1) / Z.pos N.
Proof.
  intros HkN Hn.
  destruct (percent_computes k N HkN) as (m & Hm & Hrel).
  assert (m = n) by congruence. subst m.
  assert (HN : (0 < IZR (Z.pos N))%R) by (apply IZR_lt; lia).
  set (x := (IZR (Z.pos k) / IZR (Z.pos N))%R) in *.
  assert (Hx : (x * IZR (Z.pos N) = IZR (Z.pos k))%R) by (unfold x; field; lra).
  split.
  - set (f := 100 * Z.pos k / Z.pos N).
    assert (Hf : f * Z.pos N <= 100 * Z.pos k)
      by (unfold f; rewrite Z.mul_comm; apply Z.mul_div_le; lia).
    assert (Hf100 : f <= 100).
    { unfold f. apply Z.div_le_upper_bound; lia. }
    destruct (Z_le_gt_dec f 0) as [Hf0|Hf0].
    { apply percent_rel_nonneg in Hrel. lia. }
    destruct (percent_hundredths f ltac:(lia)) as (nf & Hnf & Hbf).
    destruct (percent_computes (Z.to_pos f) 100 ltac:(lia)) as (m & Hm' & Hrelf).
    assert (m = nf) by congruence. subst m.
    rewrite Z2Pos.id in Hrelf by lia.
    assert (nf <= n); [|lia].
    apply (percent_rel_mono _ _ _ _ Hrelf Hrel).
    apply IZR_le in Hf. rewrite !mult_IZR in Hf.
    apply Rmult_le_reg_r with (IZR (Z.pos N)); [assumption|].
    rewrite Hx. lra.
  - set (c := (100 * Z.pos k + Z.pos N - 1) / Z.pos N).
    assert (Hc : 100 * Z.pos k <= c * Z.pos N).
    { pose proof (Z.mul_succ_div_gt (100 * Z.pos k + Z.pos N - 1) (Z.pos N) ltac:(lia)).
      fold c in H. lia. }
    assert (Hc1 : 1 <= c).
    { unfold c. apply Z.div_le_lower_bound; lia. }
    assert (Hc100 : c <= 100).
    { unfold c. apply Z.lt_succ_r, Z.div_lt_upper_bound; lia. }
    destruct (percent_hundredths c ltac:(lia)) as (nc & Hnc & Hbc).
    destruct (percent_computes (Z.to_pos c) 100 ltac:(lia)) as (m & Hm' & Hrelc).
    assert (m = nc) by congruence. subst m.
    rewrite Z2Pos.id in Hrelc by lia.
    assert (n <= nc); [|lia].
    apply (percent_rel_mono _ _ _ _ Hrel Hrelc).
    apply IZR_le in Hc. rewrite !mult_IZR in Hc.
    apply Rmult_le_reg_r with (IZR (Z.pos N)); [assumption|].
    rewrite Hx. unfold Rdiv. rewrite Rmult_assoc, (Rmult_comm (/ 100)), <- Rmult_assoc.
    lra.
Qed.

(** ** The progress value *)

Lemma progress_value_percent idx total :
  0 <= idx < total ->
  progress_value idx total = percent (Z.to_pos (idx + 1)) (Z.to_pos total).
Proof.
  intros H. unfold progress_value, py_truediv, percent.
  destruct (Z.eqb_spec total 0) as [|_]; [lia|].
  destruct (idx + 1) as [|k|k] eqn:Ek; try lia.
  destruct total as [|N|N]; try lia.
  cbn [int_operand Z.to_pos].
  destruct (SFdiv_int_spec k N ltac:(lia)) as [Hnn _].
  destruct (SFdiv prec emax (S754_finite false k 0) (S754_finite false N 0))
    as [[]|[]| |[] m e]; try contradiction; reflexivity.
Qed.

Lemma progress_value_bounds idx total :
  0 <= idx < total ->
  exists v, progress_value idx total = inr v /\
            100 * (idx + 1) / total - 1 <= v <= (100 * (idx + 1) + total - 1) / total.
Proof.
  intros H. rewrite progress_value_percent by assumption.
  destruct (percent_computes (Z.to_pos (idx + 1)) (Z.to_pos total) ltac:(lia))
    as (v & Hv & _).
  exists v. split; [assumption|].
  pose proof (percent_bounds (Z.to_pos (idx + 1)) (Z.to_pos total) v ltac:(lia) Hv) as Hb.
  rewrite !Z2Pos.id in Hb by lia. exact Hb.
Qed.

Lemma progress_value_mono i j total v v' :
  0 <= i <= j -> j < total ->
  progress_value i total = inr v -> progress_value j total = inr v' -> v <= v'.
Proof.
  intros Hij Hj. rewrite !progress_value_percent by lia.
  apply percent_mono; lia.
Qed.

Lemma progress_value_last total :
  0 < total -> progress_value (total - 1) total = inr 100.
Proof.
  intros H. rewrite progress_value_percent by lia.
  replace (total - 1 + 1) with total by lia. apply percent_full.
Qed.

Lemma progress_value_no_tables idx : progress_value idx 0 = inl ZeroDivisionError.
Proof. reflexivity. Qed.

Example progress_value_third : progress_value 1 3 = inr 66.
Proof. vm_compute. reflexivity. Qed.

(** 0.29 * 100 is a double just below 29. *)
Example progress_value_29_of_100 : progress_value 28 100 = inr 28.
Proof. vm_compute. reflexivity. Qed.

Example truediv_of_doubles :
  py_truediv 2 3 = inr (SFdiv prec emax (float_of_int 2) (float_of_int 3)).
Proof. vm_compute. reflexivity. Qed.

(** ** The loader thread *)

Lemma run_loop total : forall rest idx acc,
  0 <= idx -> idx + Z.of_nat (length rest) <= total ->
  Forall (fun table : row => table <> []) rest ->
  exists vs names,
    for_enumerate rest idx (run_body total) acc tt = (tt, map EvProgress vs, inr (acc ++ names)) /\
    Forall2 (fun i v => 0 <= i < total /\ progress_value i total = inr v)
            (seqZ idx (Z.of_nat (length rest))) vs /\
    Forall2 (fun (table : row) name => table !! 0%nat = Some name) rest names.
Proof.
  induction rest as [|table rest IH]; intros idx acc Hidx Hlen Hwf.
  - exists [], []. cbn. rewrite app_nil_r. repeat split; constructor.
  - inversion Hwf as [|? ? Htable Hrest]; subst.
    destruct table as [|name cols]; [congruence|].
    simpl length in Hlen.
    destruct (progress_value_bounds idx total ltac:(lia)) as (v & Hv & _).
    destruct (IH (idx + 1) (acc ++ [name]) ltac:(lia) ltac:(lia) Hrest)
      as (vs & names & Hloop & Hvs & Hnames).
    exists (v :: vs), (name :: names). split; [|split].
    + cbn [for_enumerate]. unfold bind at 1.
      assert (Hbody : run_body total idx (name :: cols) acc tt
                      = (tt, [EvProgress v], inr (acc ++ [name]))).
      { unfold run_body, bind, index, lift, emit, ret. cbn. rewrite Hv. reflexivity. }
      rewrite Hbody, Hloop. cbn. rewrite <- app_assoc. reflexivity.
    + simpl length. rewrite Nat2Z.inj_succ, seqZ_cons by lia.
      constructor; [split; [lia|assumption]|].
      replace (Z.succ idx) with (idx + 1) by lia.
      replace (Z.pred (Z.succ (Z.of_nat (length rest)))) with (Z.of_nat (length rest)) by lia.
      assumption.
    + constructor; [reflexivity|assumption].
Qed.

(** A run on a readable catalog: one progress value per table, then the
    close, then the completion signal. *)
Lemma run_listing w db_path tables :
  connect_ok w db_path = true ->
  execute_result w db_path catalog_query = inr tables ->
  Forall (fun table : row => table <> []) tables ->
  exists vs names,
    run w db_path tt
    = (tt, [EvConnect db_path; EvExecute db_path catalog_query] ++ map EvProgress vs
             ++ [EvClose db_path; EvFinished names], inr tt) /\
    Forall2 (fun i v => 0 <= i < Z.of_nat (length tables) /\
                        progress_value i (Z.of_nat (length tables)) = inr v)
            (seqZ 0 (Z.of_nat (length tables))) vs /\
    Forall2 (fun (table : row) name => table !! 0%nat = Some name) tables names.
Proof.
  intros Hc Hq Hwf.
  destruct (run_loop (Z.of_nat (length tables)) tables 0 [] ltac:(lia) ltac:(lia) Hwf)
    as (vs & names & Hloop & Hvs & Hnames).
  exists vs, names. split; [|split; assumption].
  unfold run, connect, execute, close. rewrite Hc.
  unfold bind, emit, ret. cbn [conn_path]. rewrite Hq, Hloop. cbn.
  reflexivity.
Qed.

Lemma progress_values_listing p q vs names :
  progress_values ([EvConnect p; EvExecute p q] ++ map EvProgress vs
                     ++ [EvClose p; EvFinished names]) = vs.
Proof.
  cbn. induction vs as [|v vs IH]; [reflexivity|]. cbn. f_equal. exact IH.
Qed.

Lemma finished_lists_listing p q vs names :
  finished_lists ([EvConnect p; EvExecute p q] ++ map EvProgress vs
                    ++ [EvClose p; EvFinished names]) = [names].
Proof. cbn. induction vs as [|v vs IH]; [reflexivity|]. cbn. exact IH. Qed.

(** When the catalog query fails the exception leaves [run] at once. *)
Lemma run_query_failure w db_path msg :
  connect_ok w db_path = true ->
  execute_result w db_path catalog_query = inl msg ->
  run w db_path tt
  = (tt, [EvConnect db_path; EvExecute db_path catalog_query], inl (SqliteError msg)).
Proof.
  intros Hc Hq. unfold run, connect, execute. rewrite Hc.
  unfold bind, emit, ret, raise. cbn [conn_path]. rewrite Hq. reflexivity.
Qed.

Example run_shop :
  run shop_world "/data/shop.db" tt
  = (tt, [EvConnect "/data/shop.db"; EvExecute "/data/shop.db" catalog_query;
          EvProgress 33; EvProgress 66; EvProgress 100;
          EvClose "/data/shop.db";
          EvFinished [SqlText "customers"; SqlText "orders"; SqlText "order"]], inr tt).
Proof. vm_compute. reflexivity. Qed.

(** ** Opening a table *)

Lemma for_each_pure {A B} (f : A -> M main_window B) (g : A -> exn + B) :
  (forall x s, f x s = (s, [], g x)) ->
  forall l s, for_each l f s = (s, [], traverse g l).
Proof.
  intros Hf. induction l as [|x rest IH]; intros s; [reflexivity|].
  cbn [for_each traverse]. unfold bind. rewrite Hf.
  destruct (g x) as [e|y]; [reflexivity|].
  rewrite IH. destruct (traverse g rest); reflexivity.
Qed.

Lemma for_each_labels {B} columns (k : list string -> M main_window B) s :
  (column_names <- for_each columns (fun col => index col 1) ;;
   labels <- for_each column_names as_label ;;
   k labels) s
  = match header_labels columns with
    | inl e => (s, [], inl e)
    | inr labels => k labels s
    end.
Proof.
  unfold bind at 1, header_labels.
  rewrite (for_each_pure (fun col => index col 1) second_field).
  2:{ intros col s'. unfold index, second_field. destruct (col !! 1%nat); reflexivity. }
  destruct (traverse second_field columns) as [e|names]; [reflexivity|].
  unfold bind at 1.
  rewrite (for_each_pure as_label label_text).
  2:{ intros v s'. destruct v; reflexivity. }
  destruct (traverse label_text names) as [e|labels]; [reflexivity|].
  destruct (k labels s) as [[s2 tr2] r]. reflexivity.
Qed.

Lemma setItem_counts r c item t :
  rowCount (setItem r c item t) = rowCount t /\
  columnCount (setItem r c item t) = columnCount t.
Proof. split; reflexivity. Qed.

Lemma populate_row_counts w r : forall (cols : list (nat * sql_value)) t,
  rowCount (fold_left (fun t '(c, item) => setItem r c (py_str w item) t) cols t) = rowCount t /\
  columnCount (fold_left (fun t '(c, item) => setItem r c (py_str w item) t) cols t)
  = columnCount t.
Proof.
  induction cols as [|[c item] cols IH]; intros t; [split; reflexivity|].
  cbn [fold_left]. destruct (IH (setItem r c (py_str w item) t)) as [H1 H2].
  rewrite H1, H2. split; reflexivity.
Qed.

Lemma populate_counts w data t :
  rowCount (populate w data t) = rowCount t /\
  columnCount (populate w data t) = columnCount t.
Proof.
  unfold populate.
  generalize (imap (fun (r : nat) (rowData : row) => (r, rowData)) data).
  intros rows. revert t.
  induction rows as [|[r rowData] rows IH]; intros t; [split; reflexivity|].
  cbn [fold_left].
  destruct (IH (fold_left (fun t '(c, item) => setItem r c (py_str w item) t)
                  (imap (fun c item => (c, item)) rowData) t)) as [H1 H2].
  rewrite H1, H2. apply populate_row_counts.
Qed.

Lemma build_grid_counts w data columns names :
  rowCount (build_grid w data columns names) = length data /\
  columnCount (build_grid w data columns names) = length columns.
Proof.
  unfold build_grid. destruct (populate_counts w data
    (setHorizontalHeaderLabels names
       (setColumnCount (length columns) (setRowCount (length data) QTableWidget))))
    as [H1 H2].
  rewrite H1, H2. split; reflexivity.
Qed.

Section AddTableTab.
Variable w : world.
Variables db_name table_name : string.
Variable s : main_window.
Variable info : db_info.
Hypothesis Hreg : database_items s !! db_name = Some info.

Lemma addTableTab_connect_failure :
  connect_ok w (path info) = false ->
  addTableTab w db_name table_name s
  = (s, [], inl (SqliteError "unable to open database file")).
Proof.
  intros Hc. unfold addTableTab, bind, get. rewrite Hreg.
  unfold connect. rewrite Hc. reflexivity.
Qed.

Hypothesis Hconn : connect_ok w (path info) = true.

Lemma addTableTab_scan_failure msg :
  execute_result w (path info) (scan_query table_name) = inl msg ->
  addTableTab w db_name table_name s
  = (s, [EvConnect (path info); EvExecute (path info) (scan_query table_name);
         EvPrint ("Error loading table " +:+ table_name +:+ ": " +:+ msg);
         EvClose (path info)], inr PyNone).
Proof.
  intros Hq. unfold addTableTab, bind at 1, get. rewrite Hreg.
  unfold connect. rewrite Hconn.
  unfold bind at 1. unfold bind at 1. unfold emit at 1. unfold ret at 1.
  unfold try_finally, try_except, execute, close.
  unfold bind at 1. unfold bind at 1. unfold emit at 1.
  cbn [conn_path]. rewrite Hq. reflexivity.
Qed.

Lemma addTableTab_info_failure data msg :
  execute_result w (path info) (scan_query table_name) = inr data ->
  execute_result w (path info) (table_info_query table_name) = inl msg ->
  addTableTab w db_name table_name s
  = (s, [EvConnect (path info); EvExecute (path info) (scan_query table_name);
         EvExecute (path info) (table_info_query table_name);
         EvPrint ("Error loading table " +:+ table_name +:+ ": " +:+ msg);
         EvClose (path info)], inr PyNone).
Proof.
  intros Hq Hi. unfold addTableTab, bind at 1, get. rewrite Hreg.
  unfold connect. rewrite Hconn.
  unfold bind at 1. unfold bind at 1. unfold emit at 1. unfold ret at 1.
  unfold try_finally, try_except, execute, close.
  unfold bind at 1. unfold bind at 1. unfold emit at 1.
  cbn [conn_path]. rewrite Hq. unfold ret at 1.
  unfold bind at 1. unfold bind at 1. unfold emit at 1.
  rewrite Hi. reflexivity.
Qed.

Lemma addTableTab_header_failure data columns e :
  execute_result w (path info) (scan_query table_name) = inr data ->
  execute_result w (path info) (table_info_query table_name) = inr columns ->
  header_labels columns = inl e ->
  (forall msg, e <> SqliteError msg) ->
  addTableTab w db_name table_name s
  = (s, [EvConnect (path info); EvExecute (path info) (scan_query table_name);
         EvExecute (path info) (table_info_query table_name); EvClose (path info)], inl e).
Proof.
  intros Hq Hi Hh He. unfold addTableTab, bind at 1, get. rewrite Hreg.
  unfold connect. rewrite Hconn.
  unfold bind at 1. unfold bind at 1. unfold emit at 1. unfold ret at 1.
  unfold try_finally, try_except, execute, close.
  unfold bind at 1. unfold bind at 1. unfold emit at 1.
  cbn [conn_path]. rewrite Hq. unfold ret at 1.
  unfold bind at 1. unfold bind at 1. unfold emit at 1.
  rewrite Hi. unfold ret at 1.
  rewrite for_each_labels, Hh.
  destruct e; try reflexivity. exfalso. eapply He. reflexivity.
Qed.

Lemma addTableTab_success data columns names :
  execute_result w (path info) (scan_query table_name) = inr data ->
  execute_result w (path info) (table_info_query table_name) = inr columns ->
  header_labels columns = inr names ->
  addTableTab w db_name table_name s
  = (let s1 := addTab (build_grid w data columns names) table_name s in
     setCurrentIndex (Z.of_nat (length (tabs s1)) - 1) s1,
     [EvConnect (path info); EvExecute (path info) (scan_query table_name);
      EvExecute (path info) (table_info_query table_name); EvClose (path info)], inr PyNone).
Proof.
  intros Hq Hi Hh. unfold addTableTab, bind at 1, get. rewrite Hreg.
  unfold connect. rewrite Hconn.
  unfold bind at 1. unfold bind at 1. unfold emit at 1. unfold ret at 1.
  unfold try_finally, try_except, execute, close.
  unfold bind at 1. unfold bind at 1. unfold emit at 1.
  cbn [conn_path]. rewrite Hq. unfold ret at 1.
  unfold bind at 1. unfold bind at 1. unfold emit at 1.
  rewrite Hi. unfold ret at 1.
  rewrite for_each_labels, Hh.
  reflexivity.
Qed.
End AddTableTab.

Lemma traverse_failure {A B} (g : A -> exn + B) (P : exn -> Prop) :
  (forall x e, g x = inl e -> P e) ->
  forall l e, traverse g l = inl e -> P e.
Proof.
  intros Hg. induction l as [|x rest IH]; intros e H; [discriminate|].
  cbn [traverse] in H. destruct (g x) as [e'|y] eqn:Ex.
  - injection H as <-. eapply Hg, Ex.
  - destruct (traverse g rest) as [e'|ys]; [|discriminate].
    injection H as <-. apply IH. reflexivity.
Qed.

Lemma header_labels_not_sqlite columns e :
  header_labels columns = inl e -> forall msg, e <> SqliteError msg.
Proof.
  unfold header_labels. intros H msg.
  destruct (traverse second_field columns) as [e'|names] eqn:E.
  - injection H as <-. revert E.
    apply (traverse_failure second_field (fun e => e <> SqliteError msg)).
    intros col e. unfold second_field. destruct (col !! 1%nat); [discriminate|].
    intros [= <-]. discriminate.
  - revert H. apply (traverse_failure label_text (fun e => e <> SqliteError msg)).
    intros v e'. destruct v; cbn; try discriminate; intros [= <-]; discriminate.
Qed.

Lemma addTableTab_unregistered w db_name table_name s :
  database_items s !! db_name = None ->
  addTableTab w db_name table_name s = (s, [], inr PyNone).
Proof. intros H. unfold addTableTab, bind, get. rewrite H. reflexivity. Qed.

Lemma setCurrentIndex_frame i s :
  database_items (setCurrentIndex i s) = database_items s /\
  treeModel (setCurrentIndex i s) = treeModel s /\
  loaders (setCurrentIndex i s) = loaders s /\
  tabs (setCurrentIndex i s) = tabs s.
Proof. unfold setCurrentIndex. case_decide; repeat split; reflexivity. Qed.

(** The cases of a table open, by what SQLite answers. *)
Lemma addTableTab_cases w db_name table_name s :
  addTableTab w db_name table_name s = (s, [], inr PyNone) \/
  (exists e tr, addTableTab w db_name table_name s = (s, tr, e)) \/
  (exists grid tr,
     addTableTab w db_name table_name s
     = (let s1 := addTab grid table_name s in
        setCurrentIndex (Z.of_nat (length (tabs s1)) - 1) s1, tr, inr PyNone)).
Proof.
  destruct (database_items s !! db_name) as [info|] eqn:Hreg;
    [|left; apply addTableTab_unregistered; assumption].
  right.
  destruct (connect_ok w (path info)) eqn:Hc;
    [|left; eexists _, _; eapply addTableTab_connect_failure; eassumption].
  destruct (execute_result w (path info) (scan_query table_name)) as [msg|data] eqn:Hq;
    [left; eexists _, _; eapply addTableTab_scan_failure; eassumption|].
  destruct (execute_result w (path info) (table_info_query table_name))
    as [msg|columns] eqn:Hi;
    [left; eexists _, _; eapply addTableTab_info_failure; eassumption|].
  destruct (header_labels columns) as [e|names] eqn:Hh.
  - left. eexists _, _. eapply addTableTab_header_failure; try eassumption.
    eapply header_labels_not_sqlite; eassumption.
  - right. eexists _, _. eapply addTableTab_success; eassumption.
Qed.

Lemma addTableTab_frame w db_name table_name s :
  database_items (state_after (addTableTab w db_name table_name) s) = database_items s /\
  treeModel (state_after (addTableTab w db_name table_name) s) = treeModel s /\
  loaders (state_after (addTableTab w db_name table_name) s) = loaders s.
Proof.
  unfold state_after.
  destruct (addTableTab_cases w db_name table_name s)
    as [H|[(e & tr & H)|(grid & tr & H)]]; rewrite H; cbn [fst];
    try (repeat split; reflexivity).
  destruct (setCurrentIndex_frame
              (Z.of_nat (length (tabs (addTab grid table_name s))) - 1)
              (addTab grid table_name s)) as (H1 & H2 & H3 & _).
  rewrite H1, H2, H3. repeat split; reflexivity.
Qed.

(** ** The registry *)

Lemma loadDatabase_present db_name db_path s :
  is_Some (database_items s !! db_name) ->
  loadDatabase db_name db_path s = (s, [], inr PyNone).
Proof.
  intros H. unfold loadDatabase, bind, get. cbn.
  destruct (decide (is_Some (database_items s !! db_name))); [reflexivity|contradiction].
Qed.

Lemma loadDatabase_absent db_name db_path s :
  database_items s !! db_name = None ->
  loadDatabase db_name db_path s
  = (start_loader db_name db_path
       (setText ("Loading " +:+ db_name +:+ "...")
          (set_progress true 0
             (set_database_items <[db_name := {| path := db_path |}]> s))),
     [], inr PyNone).
Proof.
  intros H. unfold loadDatabase, bind, get. cbn.
  destruct (decide (is_Some (database_items s !! db_name))) as [[x Hx]|_];
    [congruence|reflexivity].
Qed.

Lemma loadDatabase_keeps db_name db_path s n i :
  database_items s !! n = Some i ->
  database_items (state_after (loadDatabase db_name db_path) s) !! n = Some i.
Proof.
  intros H. unfold state_after.
  destruct (database_items s !! db_name) as [x|] eqn:E.
  - rewrite loadDatabase_present by eauto. exact H.
  - rewrite loadDatabase_absent by assumption. cbn.
    rewrite lookup_insert_ne; [exact H|]. intros ->. congruence.
Qed.

(** ** Clicks on the tree *)

Lemma onTreeItemClicked_top w r s item :
  treeModel s !! r = Some item ->
  onTreeItemClicked w (TopLevel r) s
  = (setWindowTitle ("Database: " +:+ text item) s, [], inr PyNone).
Proof. intros H. unfold onTreeItemClicked, bind, get. rewrite H. reflexivity. Qed.

Lemma onTreeItemClicked_child w pr r s parent table_name :
  treeModel s !! pr = Some parent ->
  children parent !! r = Some table_name ->
  onTreeItemClicked w (Child pr r) s
  = addTableTab w (text parent) table_name
      (setWindowTitle ("Table: " +:+ table_name +:+ " (" +:+ text parent +:+ ")") s).
Proof.
  intros Hp Hr. unfold onTreeItemClicked, bind at 1, get. rewrite Hp, Hr.
  unfold bind, modify.
  destruct (addTableTab w (text parent) table_name _) as [[s2 tr2] res].
  reflexivity.
Qed.

Lemma onTreeItemClicked_frame w idx s :
  database_items (state_after (onTreeItemClicked w idx) s) = database_items s /\
  treeModel (state_after (onTreeItemClicked w idx) s) = treeModel s /\
  loaders (state_after (onTreeItemClicked w idx) s) = loaders s.
Proof.
  destruct idx as [r|pr r].
  - destruct (treeModel s !! r) as [item|] eqn:Hr.
    + unfold state_after. rewrite (onTreeItemClicked_top w r s item Hr).
      repeat split; reflexivity.
    + unfold state_after, onTreeItemClicked, bind, get. rewrite Hr.
      repeat split; reflexivity.
  - destruct (treeModel s !! pr) as [parent|] eqn:Hp.
    + destruct (children parent !! r) as [table_name|] eqn:Hr.
      * unfold state_after.
        rewrite (onTreeItemClicked_child w pr r s parent table_name Hp Hr).
        exact (addTableTab_frame w (text parent) table_name
                 (setWindowTitle
                    ("Table: " +:+ table_name +:+ " (" +:+ text parent +:+ ")") s)).
      * unfold state_after, onTreeItemClicked, bind, get. rewrite Hp, Hr.
        repeat split; reflexivity.
    + unfold state_after, onTreeItemClicked, bind, get. rewrite Hp.
      repeat split; reflexivity.
Qed.

Lemma newSession_state p s :
  state_after (newSession p) s
  = if decide (p = "") then s else state_after (loadDatabase (basename p) p) s.
Proof.
  unfold newSession. case_decide; [reflexivity|].
  unfold state_after, bind.
  destruct (loadDatabase (basename p) p s) as [[s1 tr1] [e|r]]; reflexivity.
Qed.

Lemma closeTab_frame i s :
  database_items (state_after (closeTab i) s) = database_items s /\
  treeModel (state_after (closeTab i) s) = treeModel s /\
  loaders (state_after (closeTab i) s) = loaders s.
Proof.
  unfold state_after, closeTab, bind, modify. cbn.
  unfold removeTab. case_decide; repeat split; reflexivity.
Qed.

Lemma dispatch_keeps w ev s n i :
  database_items s !! n = Some i ->
  database_items (state_after (dispatch w ev) s) !! n = Some i.
Proof.
  intros H. destruct ev as [p|v|k tables|idx|k|]; cbn [dispatch].
  - rewrite newSession_state. case_decide; [exact H|].
    apply loadDatabase_keeps, H.
  - exact H.
  - unfold state_after, bind, get. cbn.
    destruct (loaders s !! k) as [[db_name db_path]|]; exact H.
  - destruct (onTreeItemClicked_frame w idx s) as (Hf & _). rewrite Hf. exact H.
  - destruct (closeTab_frame k s) as (Hf & _). rewrite Hf. exact H.
  - exact H.
Qed.

Lemma deliver_keeps evs : forall s n i,
  database_items s !! n = Some i -> database_items (deliver evs s) !! n = Some i.
Proof.
  induction evs as [|[w ev] evs IH]; intros s n i H; [exact H|].
  cbn [deliver]. apply IH, dispatch_keeps, H.
Qed.

(** ** The invariant of the event loop *)







(** ** Tabs *)

Lemma remove_nth_length {A} (l : list A) : forall i,
  (i < length l)%nat -> length (remove_nth i l) = (length l - 1)%nat.
Proof.
  induction l as [|x l IH]; intros i Hi; [cbn in Hi; lia|].
  destruct i as [|i]; cbn; [lia|].
  cbn in Hi. rewrite IH by lia. lia.
Qed.

Lemma remove_nth_before {A} (l : list A) : forall i j,
  (j < i)%nat -> remove_nth i l !! j = l !! j.
Proof.
  induction l as [|x l IH]; intros i j Hj; [reflexivity|].
  destruct i as [|i]; [lia|]. destruct j as [|j]; [reflexivity|].
  cbn. apply IH. lia.
Qed.

Lemma remove_nth_after {A} (l : list A) : forall i j,
  (i <= j)%nat -> remove_nth i l !! j = l !! S j.
Proof.
  induction l as [|x l IH]; intros i j Hj; [reflexivity|].
  destruct i as [|i]; [reflexivity|]. destruct j as [|j]; [lia|].
  cbn. apply IH. lia.
Qed.

(** * The claims *)

(** C1, as amended.  On a database whose catalog lists [N] tables the loader
    emits exactly one progress value per entry, in order, and the value for
    the entry at zero-based index [idx] is [int(((idx + 1) / N) * 100)]: the
    double-precision product truncated toward zero, not the rounded
    percentage.  It is at most the exact percentage rounded up and at least
    the exact percentage rounded down, minus one. *)
Theorem C1_truncated_progress w db_path tables :
  connect_ok w db_path = true ->
  execute_result w db_path catalog_query = inr tables ->
  Forall (fun table : row => table <> []) tables ->
  Forall2 (fun idx v =>
             progress_value idx (Z.of_nat (length tables)) = inr v /\
             100 * (idx + 1) / Z.of_nat (length tables) - 1 <= v /\
             v <= (100 * (idx + 1) + Z.of_nat (length tables) - 1) / Z.of_nat (length tables))
          (seqZ 0 (Z.of_nat (length tables)))
          (progress_values (events_of (run w db_path) tt)).
Proof.
  intros Hc Hq Hwf.
  destruct (run_listing w db_path tables Hc Hq Hwf) as (vs & names & Hrun & Hvs & _).
  unfold events_of. rewrite Hrun. cbn [fst snd].
  rewrite progress_values_listing.
  eapply Forall2_impl; [exact Hvs|].
  intros idx v [Hidx Hv]. cbn beta in Hidx, Hv.
  destruct (progress_value_bounds idx _ Hidx) as (v' & Hv' & Hb).
  assert (v' = v) by congruence. subst v'. split; [assumption|lia].
Qed.

Lemma C1_truncated_progress_witness :
  Forall2 (fun idx v =>
             progress_value idx 3 = inr v /\
             100 * (idx + 1) / 3 - 1 <= v /\ v <= (100 * (idx + 1) + 3 - 1) / 3)
          (seqZ 0 3)
          (progress_values (events_of (run shop_world "/data/shop.db") tt)).
Proof.
  apply (C1_truncated_progress shop_world "/data/shop.db" shop_catalog).
  - reflexivity.
  - reflexivity.
  - repeat constructor; discriminate.
Defined.

(** C1, as stated, fails: with three tables the second value emitted is 66,
    while 200/3 rounds to 67. *)
Lemma C1_rounded_progress_counterexample :
  progress_values (events_of (run shop_world "/data/shop.db") tt)
  <> map (fun idx => rounded_percentage idx 3) (seqZ 0 3).
Proof. intros H. vm_compute in H. discriminate H. Qed.

(** C2, as amended.  The progress values are non-decreasing; when the
    catalog lists at least one table the last of them is 100; and the list
    emitted on completion holds the name of every catalog row, in the order
    of the rows. *)
Theorem C2_progress_monotone_complete w db_path tables :
  connect_ok w db_path = true ->
  execute_result w db_path catalog_query = inr tables ->
  Forall (fun table : row => table <> []) tables ->
  (forall i j v v', (i <= j)%nat ->
     progress_values (events_of (run w db_path) tt) !! i = Some v ->
     progress_values (events_of (run w db_path) tt) !! j = Some v' -> v <= v') /\
  (tables <> [] -> last (progress_values (events_of (run w db_path) tt)) = Some 100) /\
  exists names,
    finished_lists (events_of (run w db_path) tt) = [names] /\
    length names = length tables /\
    Forall2 (fun (table : row) name => table !! 0%nat = Some name) tables names.
Proof.
  intros Hc Hq Hwf.
  destruct (run_listing w db_path tables Hc Hq Hwf) as (vs & names & Hrun & Hvs & Hnames).
  unfold events_of. rewrite Hrun. cbn [fst snd].
  rewrite progress_values_listing, finished_lists_listing.
  set (N := Z.of_nat (length tables)) in *.
  assert (Hat : forall i v, vs !! i = Some v ->
                  0 <= Z.of_nat i < N /\ progress_value (Z.of_nat i) N = inr v).
  { intros i v Hi.
    destruct (Forall2_lookup_r _ _ _ _ _ Hvs Hi) as (k & Hk & Hr & Hv).
    apply lookup_seqZ in Hk as [-> _]. cbn beta in Hr, Hv.
    replace (0 + Z.of_nat i) with (Z.of_nat i) in * by lia. auto. }
  split; [|split].
  - intros i j v v' Hij Hi Hj.
    destruct (Hat i v Hi) as [Hri Hvi]. destruct (Hat j v' Hj) as [Hrj Hvj].
    apply (progress_value_mono (Z.of_nat i) (Z.of_nat j) N); try assumption; lia.
  - intros Hne.
    assert (Hlen : length vs = length tables).
    { apply Forall2_length in Hvs. rewrite length_seqZ in Hvs. unfold N in Hvs. lia. }
    assert (Hpos : (0 < length tables)%nat) by (destruct tables; [congruence|cbn; lia]).
    rewrite last_lookup.
    destruct (lookup_lt_is_Some_2 vs (pred (length vs)) ltac:(lia)) as [v Hv].
    rewrite Hv. destruct (Hat _ _ Hv) as [_ Hp].
    replace (Z.of_nat (pred (length vs))) with (N - 1) in Hp by (unfold N; lia).
    rewrite progress_value_last in Hp by (unfold N; lia). congruence.
  - exists names. split; [reflexivity|]. split; [|assumption].
    symmetry. eapply Forall2_length, Hnames.
Qed.

Lemma C2_progress_monotone_complete_witness :
  (forall i j v v', (i <= j)%nat ->
     progress_values (events_of (run shop_world "/data/shop.db") tt) !! i = Some v ->
     progress_values (events_of (run shop_world "/data/shop.db") tt) !! j = Some v' ->
     v <= v') /\
  (shop_catalog <> [] ->
   last (progress_values (events_of (run shop_world "/data/shop.db") tt)) = Some 100) /\
  exists names,
    finished_lists (events_of (run shop_world "/data/shop.db") tt) = [names] /\
    length names = length shop_catalog /\
    Forall2 (fun (table : row) name => table !! 0%nat = Some name) shop_catalog names.
Proof.
  apply (C2_progress_monotone_complete shop_world "/data/shop.db" shop_catalog).
  - reflexivity.
  - reflexivity.
  - repeat constructor; discriminate.
Defined.

(** C2, as stated, fails for a database without tables: no progress value is
    emitted, so the sequence has no last element. *)
Lemma C2_last_progress_counterexample :
  last (progress_values (events_of (run empty_world "/data/empty.db") tt)) <> Some 100.
Proof. intros H. vm_compute in H. discriminate H. Qed.

(** C3 does not hold of the code: on a file that SQLite rejects at the
    catalog query the exception leaves [run] with the connection open, and
    nothing is closed or signalled. *)
Theorem C3_connection_left_open :
  run not_a_database "/data/notes.db" tt
  = (tt, [EvConnect "/data/notes.db"; EvExecute "/data/notes.db" catalog_query],
     inl (SqliteError "file is not a database")) /\
  List.filter is_close (events_of (run not_a_database "/data/notes.db") tt) = [] /\
  finished_lists (events_of (run not_a_database "/data/notes.db") tt) = [].
Proof.
  rewrite (run_query_failure not_a_database "/data/notes.db" "file is not a database")
    by reflexivity.
  repeat split; reflexivity.
Qed.

(** C4.  When the row scan or the column-metadata query of a table open
    fails, the failure is caught and one line is printed, the window (and so
    its tabs) is left as it was, and the connection opened for the attempt
    is closed, as the last thing done. *)
Theorem C4_query_failure_aborts w s db_name table_name info :
  database_items s !! db_name = Some info ->
  connect_ok w (path info) = true ->
  (exists msg, execute_result w (path info) (scan_query table_name) = inl msg) \/
  (exists data msg,
     execute_result w (path info) (scan_query table_name) = inr data /\
     execute_result w (path info) (table_info_query table_name) = inl msg) ->
  outcome_of (addTableTab w db_name table_name) s = inr PyNone /\
  (exists line,
     List.filter is_print (events_of (addTableTab w db_name table_name) s) = [EvPrint line]) /\
  state_after (addTableTab w db_name table_name) s = s /\
  tabs (state_after (addTableTab w db_name table_name) s) = tabs s /\
  head (events_of (addTableTab w db_name table_name) s) = Some (EvConnect (path info)) /\
  last (events_of (addTableTab w db_name table_name) s) = Some (EvClose (path info)) /\
  List.filter is_close (events_of (addTableTab w db_name table_name) s)
  = [EvClose (path info)].
Proof.
  intros Hreg Hc [(msg & Hq)|(data & msg & Hq & Hi)];
    unfold outcome_of, events_of, state_after.
  - rewrite (addTableTab_scan_failure w db_name table_name s info Hreg Hc msg Hq).
    cbn. repeat split; eauto.
  - rewrite (addTableTab_info_failure w db_name table_name s info Hreg Hc data msg Hq Hi).
    cbn. repeat split; eauto.
Qed.

Lemma C4_query_failure_aborts_witness :
  outcome_of (addTableTab shop_world "shop.db" "order") shop_window = inr PyNone /\
  (exists line,
     List.filter is_print (events_of (addTableTab shop_world "shop.db" "order") shop_window)
     = [EvPrint line]) /\
  state_after (addTableTab shop_world "shop.db" "order") shop_window = shop_window /\
  tabs (state_after (addTableTab shop_world "shop.db" "order") shop_window)
  = tabs shop_window /\
  head (events_of (addTableTab shop_world "shop.db" "order") shop_window)
  = Some (EvConnect "/data/shop.db") /\
  last (events_of (addTableTab shop_world "shop.db" "order") shop_window)
  = Some (EvClose "/data/shop.db") /\
  List.filter is_close (events_of (addTableTab shop_world "shop.db" "order") shop_window)
  = [EvClose "/data/shop.db"].
Proof.
  apply (C4_query_failure_aborts shop_world shop_window "shop.db" "order"
           {| path := "/data/shop.db" |}).
  - vm_compute. reflexivity.
  - reflexivity.
  - left. exists "near order: syntax error". reflexivity.
Defined.

(** C5, as amended.  [loadDatabase] returns [None] whether or not it
    registers anything.  For a name already in the registry it changes
    nothing: the window is as before, so the registry keeps its one entry
    for the name and no loader is started.  For a name not in the registry
    it inserts the entry and starts one loader on the given path. *)
Theorem C5_registration db_name db_path s :
  outcome_of (loadDatabase db_name db_path) s = inr PyNone /\
  (is_Some (database_items s !! db_name) ->
   state_after (loadDatabase db_name db_path) s = s) /\
  (database_items s !! db_name = None ->
   database_items (state_after (loadDatabase db_name db_path) s)
   = <[db_name := {| path := db_path |}]> (database_items s) /\
   loaders (state_after (loadDatabase db_name db_path) s)
   = loaders s ++ [(db_name, db_path)]).
Proof.
  unfold outcome_of, state_after. split; [|split].
  - destruct (database_items s !! db_name) as [x|] eqn:E.
    + rewrite loadDatabase_present by eauto. reflexivity.
    + rewrite loadDatabase_absent by assumption. reflexivity.
  - intros H. rewrite loadDatabase_present by assumption. reflexivity.
  - intros H. rewrite loadDatabase_absent by assumption. split; reflexivity.
Qed.

Lemma C5_registration_witness :
  outcome_of (loadDatabase "shop.db" "/tmp/copy/shop.db") shop_window = inr PyNone /\
  state_after (loadDatabase "shop.db" "/tmp/copy/shop.db") shop_window = shop_window /\
  database_items (state_after (loadDatabase "shop.db" "/data/shop.db") initial_window)
  = <["shop.db" := {| path := "/data/shop.db" |}]> (database_items initial_window) /\
  loaders (state_after (loadDatabase "shop.db" "/data/shop.db") initial_window)
  = loaders initial_window ++ [("shop.db", "/data/shop.db")].
Proof.
  destruct (C5_registration "shop.db" "/tmp/copy/shop.db" shop_window) as (H1 & H2 & _).
  destruct (C5_registration "shop.db" "/data/shop.db" initial_window) as (_ & _ & H3).
  split; [exact H1|]. split.
  - apply H2. exists {| path := "/data/shop.db" |}. vm_compute. reflexivity.
  - apply H3. reflexivity.
Defined.

(** C5, as stated, fails: registering a new name does not return [True]. *)
Lemma C5_returns_true_counterexample :
  outcome_of (loadDatabase "shop.db" "/data/shop.db") initial_window <> inr (PyBool true).
Proof. intros H. vm_compute in H. discriminate H. Qed.

(** C6.  When both queries of a table open succeed and every metadata row
    carries a column name, the call returns normally and appends one tab
    whose grid has as many rows as the scan returned and as many columns as
    the metadata query returned; nothing is required of the two counts, so
    an empty table and an empty metadata result are included. *)
Theorem C6_grid_dimensions w s db_name table_name info data columns names :
  database_items s !! db_name = Some info ->
  connect_ok w (path info) = true ->
  execute_result w (path info) (scan_query table_name) = inr data ->
  execute_result w (path info) (table_info_query table_name) = inr columns ->
  header_labels columns = inr names ->
  outcome_of (addTableTab w db_name table_name) s = inr PyNone /\
  exists page,
    tabs (state_after (addTableTab w db_name table_name) s) = tabs s ++ [page] /\
    tab_text page = table_name /\
    rowCount (tab_widget page) = length data /\
    columnCount (tab_widget page) = length columns.
Proof.
  intros Hreg Hc Hq Hi Hh. unfold outcome_of, state_after.
  rewrite (addTableTab_success w db_name table_name s info Hreg Hc data columns names Hq Hi Hh).
  cbn [fst snd]. split; [reflexivity|].
  exists {| tab_widget := build_grid w data columns names; tab_text := table_name |}.
  cbn zeta.
  destruct (setCurrentIndex_frame
              (Z.of_nat (length (tabs (addTab (build_grid w data columns names) table_name s))) - 1)
              (addTab (build_grid w data columns names) table_name s)) as (_ & _ & _ & Ht).
  rewrite Ht. split; [reflexivity|]. split; [reflexivity|].
  apply build_grid_counts.
Qed.

Lemma C6_grid_dimensions_witness :
  outcome_of (addTableTab shop_world "shop.db" "orders") shop_window = inr PyNone /\
  exists page,
    tabs (state_after (addTableTab shop_world "shop.db" "orders") shop_window)
    = tabs shop_window ++ [page] /\
    tab_text page = "orders" /\
    rowCount (tab_widget page) = 0%nat /\
    columnCount (tab_widget page) = 1%nat.
Proof.
  apply (C6_grid_dimensions shop_world shop_window "shop.db" "orders"
           {| path := "/data/shop.db" |} [] orders_columns ["id"]).
  - vm_compute. reflexivity.
  - reflexivity.
  - reflexivity.
  - reflexivity.
  - reflexivity.
Defined.




(** C8.  Closing all tabs leaves none, whatever was open, also when nothing
    was.  Closing the tab at a valid index removes that tab and no other: the
    tabs before it stay where they are and the tabs after it move up by
    one. *)
Theorem C8_close_tab s i :
  tabs (state_after closeAllTabs s) = [] /\
  (0 <= i < Z.of_nat (length (tabs s)) ->
   length (tabs (state_after (closeTab i) s)) = (length (tabs s) - 1)%nat /\
   (forall j, (j < Z.to_nat i)%nat ->
      tabs (state_after (closeTab i) s) !! j = tabs s !! j) /\
   (forall j, (Z.to_nat i <= j)%nat ->
      tabs (state_after (closeTab i) s) !! j = tabs s !! S j)).
Proof.
  split; [reflexivity|]. intros Hi.
  assert (Hs : tabs (state_after (closeTab i) s) = remove_nth (Z.to_nat i) (tabs s)).
  { unfold state_after, closeTab, bind, modify. cbn. unfold removeTab.
    case_decide; [reflexivity|lia]. }
  rewrite Hs. split; [|split].
  - apply remove_nth_length. lia.
  - intros j Hj. apply remove_nth_before, Hj.
  - intros j Hj. apply remove_nth_after, Hj.
Qed.

Lemma C8_close_tab_witness :
  tabs (state_after closeAllTabs two_tabs_window) = [] /\
  tabs (state_after closeAllTabs initial_window) = [] /\
  length (tabs (state_after (closeTab 0) two_tabs_window))
  = (length (tabs two_tabs_window) - 1)%nat /\
  (forall j, (j < Z.to_nat 0)%nat ->
     tabs (state_after (closeTab 0) two_tabs_window) !! j = tabs two_tabs_window !! j) /\
  (forall j, (Z.to_nat 0 <= j)%nat ->
     tabs (state_after (closeTab 0) two_tabs_window) !! j = tabs two_tabs_window !! S j).
Proof.
  destruct (C8_close_tab two_tabs_window 0) as [Hall Hone].
  destruct (C8_close_tab initial_window 0) as [Hnone _].
  split; [exact Hall|]. split; [exact Hnone|].
  apply Hone. vm_compute. split; [discriminate|reflexivity].
Defined.

(** C9.  On a database whose catalog lists no table the loader emits no
    progress value, so line 33 and its division are never reached; it closes
    the connection and then emits the completion signal with an empty
    list. *)
Theorem C9_no_tables w db_path :
  connect_ok w db_path = true ->
  execute_result w db_path catalog_query = inr [] ->
  run w db_path tt
  = (tt, [EvConnect db_path; EvExecute db_path catalog_query;
          EvClose db_path; EvFinished []], inr tt) /\
  progress_values (events_of (run w db_path) tt) = [].
Proof.
  intros Hc Hq.
  assert (Hrun : run w db_path tt
                 = (tt, [EvConnect db_path; EvExecute db_path catalog_query;
                         EvClose db_path; EvFinished []], inr tt)).
  { unfold run, connect, execute, close. rewrite Hc.
    unfold bind, emit, ret. cbn [conn_path]. rewrite Hq. reflexivity. }
  unfold events_of. rewrite Hrun. split; reflexivity.
Qed.

Lemma C9_no_tables_witness :
  run empty_world "/data/empty.db" tt
  = (tt, [EvConnect "/data/empty.db"; EvExecute "/data/empty.db" catalog_query;
          EvClose "/data/empty.db"; EvFinished []], inr tt) /\
  progress_values (events_of (run empty_world "/data/empty.db") tt) = [].
Proof.
  apply (C9_no_tables empty_world "/data/empty.db"); reflexivity.
Defined.

(** C10.  A successful registration leaves the entry in the registry by the
    time its loader exists, and nothing the event loop delivers afterwards
    removes or changes it: the name keeps its original path, and every later
    registration under the name does nothing.  A loader that fails delivers
    nothing to the window, so this covers a failed enumeration. *)
Theorem C10_registration_persists s db_name db_path evs :
  database_items s !! db_name = None ->
  database_items (state_after (loadDatabase db_name db_path) s) !! db_name
  = Some {| path := db_path |} /\
  (db_name, db_path) ∈ loaders (state_after (loadDatabase db_name db_path) s) /\
  database_items (deliver evs (state_after (loadDatabase db_name db_path) s)) !! db_name
  = Some {| path := db_path |} /\
  forall other_path,
    loadDatabase db_name other_path
      (deliver evs (state_after (loadDatabase db_name db_path) s))
    = (deliver evs (state_after (loadDatabase db_name db_path) s), [], inr PyNone).
Proof.
  intros Hfresh.
  assert (H1 : database_items (state_after (loadDatabase db_name db_path) s) !! db_name
               = Some {| path := db_path |}).
  { unfold state_after. rewrite loadDatabase_absent by assumption. cbn.
    apply lookup_insert_eq. }
  assert (H2 : database_items (deliver evs (state_after (loadDatabase db_name db_path) s))
                 !! db_name = Some {| path := db_path |})
    by (apply deliver_keeps, H1).
  split; [exact H1|]. split; [|split; [exact H2|]].
  - unfold state_after. rewrite loadDatabase_absent by assumption. cbn.
    apply elem_of_app. right. apply list_elem_of_singleton. reflexivity.
  - intros other_path. apply loadDatabase_present. rewrite H2. eauto.
Qed.

Lemma C10_registration_persists_witness :
  database_items (state_after (loadDatabase "shop.db" "/data/shop.db") initial_window)
    !! "shop.db" = Some {| path := "/data/shop.db" |} /\
  ("shop.db", "/data/shop.db")
    ∈ loaders (state_after (loadDatabase "shop.db" "/data/shop.db") initial_window) /\
  database_items
    (deliver later_session
       (state_after (loadDatabase "shop.db" "/data/shop.db") initial_window))
    !! "shop.db" = Some {| path := "/data/shop.db" |} /\
  forall other_path,
    loadDatabase "shop.db" other_path
      (deliver later_session
         (state_after (loadDatabase "shop.db" "/data/shop.db") initial_window))
    = (deliver later_session
         (state_after (loadDatabase "shop.db" "/data/shop.db") initial_window),
       [], inr PyNone).
Proof.
  apply (C10_registration_persists initial_window "shop.db" "/data/shop.db" later_session).
  reflexivity.
Defined.

(** * Further properties of the code *)

(** ** The loader on any file *)

Lemma percent_before_last k N n :
  (k < N)%positive -> Z.pos N <= 2 ^ 53 -> percent k N = inr n -> n <= 99.
Proof.
  intros HkN HN Hn.
  destruct (percent_computes k N ltac:(lia)) as (m & Hm & Hrel).
  assert (m = n) by congruence. subst m.
  destruct (percent_computes 9007199254740991 9007199254740992 ltac:(lia))
    as (m0 & Hm0 & Hrel0).
  assert (Hc : percent 9007199254740991 9007199254740992 = inr 99)
    by (vm_compute; reflexivity).
  assert (m0 = 99) by congruence. subst m0.
  apply (percent_rel_mono _ _ _ _ Hrel Hrel0).
  assert (HNR : (0 < IZR (Z.pos N))%R) by (apply IZR_lt; lia).
  assert (Hz : Z.pos k * 9007199254740992 <= 9007199254740991 * Z.pos N).
  { change (2 ^ 53) with 9007199254740992 in HN. lia. }
  apply IZR_le in Hz. rewrite !mult_IZR in Hz.
  apply Rmult_le_reg_r with (IZR (Z.pos N)); [assumption|].
  unfold Rdiv at 1. rewrite Rmult_assoc, Rinv_l by lra. lra.
Qed.

Lemma progress_value_range idx total v :
  0 <= idx < total -> progress_value idx total = inr v -> 0 <= v <= 100.
Proof.
  intros H Hv. split.
  - rewrite progress_value_percent in Hv by assumption.
    destruct (percent_computes (Z.to_pos (idx + 1)) (Z.to_pos total) ltac:(lia))
      as (m & Hm & Hrel).
    assert (m = v) by congruence. subst m.
    eapply percent_rel_nonneg, Hrel.
  - apply (progress_value_mono idx (total - 1) total); try assumption; try lia.
    apply progress_value_last. lia.
Qed.

(** The loop on any rows: it emits progress values only, one for each row
    before the first row without a first column. *)
Lemma run_loop_any total : forall rest idx acc,
  0 <= idx -> idx + Z.of_nat (length rest) <= total ->
  exists vs r,
    for_enumerate rest idx (run_body total) acc tt = (tt, map EvProgress vs, r) /\
    Forall (fun v => 0 <= v <= 100) vs.
Proof.
  induction rest as [|table rest IH]; intros idx acc Hidx Hlen.
  - exists [], (inr acc). split; [reflexivity|constructor].
  - simpl length in Hlen.
    destruct table as [|name cols].
    + exists [], (inl IndexError). split; [reflexivity|constructor].
    + destruct (progress_value_bounds idx total ltac:(lia)) as (v & Hv & _).
      destruct (IH (idx + 1) (acc ++ [name]) ltac:(lia) ltac:(lia))
        as (vs & r & Hloop & Hvs).
      exists (v :: vs), r. split.
      * cbn [for_enumerate]. unfold bind at 1.
        assert (Hbody : run_body total idx (name :: cols) acc tt
                        = (tt, [EvProgress v], inr (acc ++ [name]))).
        { unfold run_body, bind, index, lift, emit, ret. cbn. rewrite Hv. reflexivity. }
        rewrite Hbody, Hloop. reflexivity.
      * constructor; [|assumption].
        apply (progress_value_range idx total); [lia|assumption].
Qed.

(** Every run has one of four shapes. *)
Lemma run_cases w db_path :
  (exists e, run w db_path tt = (tt, [], inl e)) \/
  (exists e, run w db_path tt
             = (tt, [EvConnect db_path; EvExecute db_path catalog_query], inl e)) \/
  (exists vs e,
     Forall (fun v => 0 <= v <= 100) vs /\
     run w db_path tt
     = (tt, [EvConnect db_path; EvExecute db_path catalog_query] ++ map EvProgress vs,
        inl e)) \/
  (exists vs names,
     Forall (fun v => 0 <= v <= 100) vs /\
     run w db_path tt
     = (tt, [EvConnect db_path; EvExecute db_path catalog_query] ++ map EvProgress vs
              ++ [EvClose db_path; EvFinished names], inr tt)).
Proof.
  destruct (connect_ok w db_path) eqn:Hc.
  2:{ left. eexists. unfold run, connect, bind. rewrite Hc. reflexivity. }
  right.
  destruct (execute_result w db_path catalog_query) as [msg|tables] eqn:Hq.
  { left. eexists. apply run_query_failure; eassumption. }
  right.
  destruct (run_loop_any (Z.of_nat (length tables)) tables 0 [] ltac:(lia) ltac:(lia))
    as (vs & r & Hloop & Hvs).
  destruct r as [e|names]; [left|right]; eexists vs, _; (split; [exact Hvs|]);
    unfold run, connect, execute, close; rewrite Hc;
    unfold bind, emit, ret; cbn [conn_path]; rewrite Hq, Hloop; reflexivity.
Qed.



Lemma progress_values_progress vs : progress_values (map EvProgress vs) = vs.
Proof. induction vs as [|v vs IH]; [reflexivity|]. cbn. f_equal. exact IH. Qed.


(** X2.  Whatever the file, every progress value the loader emits lies
    between 0 and 100. *)
Theorem progress_within_bar w db_path :
  Forall (fun v => 0 <= v <= 100) (progress_values (events_of (run w db_path) tt)).
Proof.
  unfold events_of.
  destruct (run_cases w db_path)
    as [(e & H)|[(e & H)|[(vs & e & Hvs & H)|(vs & names & Hvs & H)]]];
    rewrite H; cbn [fst snd].
  - constructor.
  - constructor.
  - cbn. rewrite progress_values_progress. exact Hvs.
  - rewrite progress_values_listing. exact Hvs.
Qed.

(** X3.  On a catalog of at most 2^53 tables the value 100 is emitted for
    the last entry only: every earlier entry gets at most 99. *)
Theorem full_only_at_last w db_path tables i v :
  connect_ok w db_path = true ->
  execute_result w db_path catalog_query = inr tables ->
  Forall (fun table : row => table <> []) tables ->
  Z.of_nat (length tables) <= 2 ^ 53 ->
  progress_values (events_of (run w db_path) tt) !! i = Some v ->
  (S i < length tables)%nat ->
  v <= 99.
Proof.
  intros Hc Hq Hwf Hsize Hi Hlt.
  destruct (run_listing w db_path tables Hc Hq Hwf) as (vs & names & Hrun & Hvs & _).
  unfold events_of in Hi. rewrite Hrun in Hi. cbn [fst snd] in Hi.
  rewrite progress_values_listing in Hi.
  destruct (Forall2_lookup_r _ _ _ _ _ Hvs Hi) as (k & Hk & Hr & Hv).
  apply lookup_seqZ in Hk as [-> _]. cbn beta in Hr, Hv.
  rewrite progress_value_percent in Hv by assumption.
  eapply percent_before_last; [| |exact Hv]; [lia|rewrite Z2Pos.id by lia; exact Hsize].
Qed.

Lemma full_only_at_last_witness :
  progress_values (events_of (run shop_world "/data/shop.db") tt) !! 1%nat = Some 66 /\
  66 <= 99.
Proof.
  split; [reflexivity|].
  apply (full_only_at_last shop_world "/data/shop.db" shop_catalog 1 66).
  - reflexivity.
  - reflexivity.
  - repeat constructor; discriminate.
  - vm_compute. discriminate.
  - reflexivity.
  - vm_compute. lia.
Defined.

(** ** Opening a database file *)

Lemma has_slash_join dir name : has_slash (dir +:+ "/" +:+ name) = true.
Proof.
  induction dir as [|c dir IH]; [reflexivity|].
  change (String c dir +:+ "/" +:+ name) with (String c (dir +:+ "/" +:+ name)).
  cbn [has_slash]. destruct (Ascii.eqb c "/"%char); [reflexivity|exact IH].
Qed.

Lemma basename_join dir name :
  has_slash name = false -> basename (dir +:+ "/" +:+ name) = name.
Proof.
  intros Hname. induction dir as [|c dir IH].
  - change ("" +:+ "/" +:+ name) with (String "/"%char name).
    cbn [basename]. rewrite Hname. reflexivity.
  - change (String c dir +:+ "/" +:+ name) with (String c (dir +:+ "/" +:+ name)).
    cbn [basename]. rewrite has_slash_join. exact IH.
Qed.

Lemma join_nonempty dir name : dir +:+ "/" +:+ name <> "".
Proof. destruct dir; discriminate. Qed.

Lemma newSession_registered p s :
  p <> "" -> is_Some (database_items (state_after (newSession p) s) !! basename p).
Proof.
  intros Hp. rewrite newSession_state. case_decide; [contradiction|].
  unfold state_after.
  destruct (database_items s !! basename p) as [x|] eqn:E.
  - rewrite loadDatabase_present by eauto. cbn. rewrite E. eauto.
  - rewrite loadDatabase_absent by assumption. cbn.
    rewrite lookup_insert_eq. eauto.
Qed.

(** X4.  A cancelled file dialog changes nothing, and of two files with the
    same base name only the first is opened: the second [newSession] leaves
    the window exactly as the first one left it, whatever their
    directories. *)
Theorem newSession_same_name_ignored s p1 p2 :
  p1 <> "" -> p2 <> "" -> basename p1 = basename p2 ->
  newSession "" s = (s, [], inr PyNone) /\
  state_after (newSession p2) (state_after (newSession p1) s)
  = state_after (newSession p1) s.
Proof.
  intros H1 H2 Hb. split; [reflexivity|].
  rewrite (newSession_state p2). case_decide; [contradiction|].
  unfold state_after at 1. rewrite loadDatabase_present; [reflexivity|].
  rewrite <- Hb. apply newSession_registered, H1.
Qed.

Lemma newSession_same_name_ignored_witness :
  newSession "" initial_window = (initial_window, [], inr PyNone) /\
  state_after (newSession "/tmp/copy/shop.db")
    (state_after (newSession "/data/shop.db") initial_window)
  = state_after (newSession "/data/shop.db") initial_window.
Proof.
  apply (newSession_same_name_ignored initial_window "/data/shop.db" "/tmp/copy/shop.db").
  - discriminate.
  - discriminate.
  - reflexivity.
Defined.

(** X5.  A file chosen as [dir/name], with no slash in [name], is registered
    under [name] with the full path as its entry when that name is free, and
    one loader is started on the full path. *)
Theorem newSession_registers_file_name s dir name :
  has_slash name = false ->
  database_items s !! name = None ->
  database_items (state_after (newSession (dir +:+ "/" +:+ name)) s) !! name
  = Some {| path := dir +:+ "/" +:+ name |} /\
  loaders (state_after (newSession (dir +:+ "/" +:+ name)) s)
  = loaders s ++ [(name, dir +:+ "/" +:+ name)].
Proof.
  intros Hname Hfree. rewrite newSession_state.
  case_decide as Hempty; [exfalso; exact (join_nonempty dir name Hempty)|].
  rewrite basename_join by assumption.
  unfold state_after. rewrite loadDatabase_absent by assumption. cbn.
  split; [apply lookup_insert_eq|reflexivity].
Qed.

Lemma newSession_registers_file_name_witness :
  database_items (state_after (newSession ("/data" +:+ "/" +:+ "shop.db")) initial_window)
    !! "shop.db" = Some {| path := "/data" +:+ "/" +:+ "shop.db" |} /\
  loaders (state_after (newSession ("/data" +:+ "/" +:+ "shop.db")) initial_window)
  = loaders initial_window ++ [("shop.db", "/data" +:+ "/" +:+ "shop.db")].
Proof.
  apply (newSession_registers_file_name initial_window "/data" "shop.db"); reflexivity.
Defined.

(** X6.  Opening a file whose name is free and then receiving the table
    list of the loader it started adds one node to the end of the tree,
    named after the file, with the tables as its children in the order
    received; the nodes already there stay, the progress bar is hidden and
    the status reads "Loaded" with the name. *)
Theorem open_then_listed w1 w2 s p tables :
  p <> "" ->
  database_items s !! basename p = None ->
  treeModel (deliver [(w1, NewSessionTriggered p);
                      (w2, LoaderFinished (length (loaders s)) tables)] s)
  = treeModel s ++ [{| text := basename p; children := tables |}] /\
  database_items (deliver [(w1, NewSessionTriggered p);
                           (w2, LoaderFinished (length (loaders s)) tables)] s)
    !! basename p = Some {| path := p |} /\
  progress_visible (deliver [(w1, NewSessionTriggered p);
                             (w2, LoaderFinished (length (loaders s)) tables)] s) = false /\
  status_text (deliver [(w1, NewSessionTriggered p);
                        (w2, LoaderFinished (length (loaders s)) tables)] s)
  = "Loaded " +:+ basename p.
Proof.
  intros Hp Hfree.
  set (s1 := start_loader (basename p) p
               (setText ("Loading " +:+ basename p +:+ "...")
                  (set_progress true 0
                     (set_database_items <[basename p := {| path := p |}]> s)))).
  assert (H1 : state_after (dispatch w1 (NewSessionTriggered p)) s = s1).
  { cbn [dispatch]. rewrite newSession_state. case_decide; [contradiction|].
    unfold state_after. rewrite loadDatabase_absent by assumption. reflexivity. }
  assert (H2 : deliver [(w1, NewSessionTriggered p);
                        (w2, LoaderFinished (length (loaders s)) tables)] s
               = state_after (onDatabaseLoaded (basename p) tables) s1).
  { cbn [deliver]. rewrite H1. cbn [dispatch].
    unfold state_after at 1, bind at 1, get.
    assert (Hl : loaders s1 !! length (loaders s) = Some (basename p, p))
      by (apply list_lookup_middle; reflexivity).
    rewrite Hl.
    destruct (onDatabaseLoaded (basename p) tables s1) as [[s2 tr2] r] eqn:E.
    unfold state_after. rewrite E. reflexivity. }
  rewrite H2. cbn. repeat split. apply lookup_insert_eq.
Qed.

Lemma open_then_listed_witness :
  treeModel (deliver [(shop_world, NewSessionTriggered "/data/shop.db");
                      (shop_world, LoaderFinished (length (loaders initial_window))
                                     ["customers"; "orders"])] initial_window)
  = treeModel initial_window
      ++ [{| text := basename "/data/shop.db"; children := ["customers"; "orders"] |}] /\
  database_items (deliver [(shop_world, NewSessionTriggered "/data/shop.db");
                           (shop_world, LoaderFinished (length (loaders initial_window))
                                          ["customers"; "orders"])] initial_window)
    !! basename "/data/shop.db" = Some {| path := "/data/shop.db" |} /\
  progress_visible (deliver [(shop_world, NewSessionTriggered "/data/shop.db");
                             (shop_world, LoaderFinished (length (loaders initial_window))
                                            ["customers"; "orders"])] initial_window)
  = false /\
  status_text (deliver [(shop_world, NewSessionTriggered "/data/shop.db");
                        (shop_world, LoaderFinished (length (loaders initial_window))
                                       ["customers"; "orders"])] initial_window)
  = "Loaded " +:+ basename "/data/shop.db".
Proof.
  apply (open_then_listed shop_world shop_world initial_window "/data/shop.db"
           ["customers"; "orders"]).
  - discriminate.
  - reflexivity.
Defined.

(** ** Loaders and registry entries *)

Lemma registry_inv_initial : registry_inv initial_window.
Proof.
  split; [reflexivity|]. intros n p. cbn. split.
  - intros H. apply elem_of_nil in H. contradiction.
  - rewrite lookup_empty. discriminate.
Qed.

Lemma loadDatabase_registry_inv db_name db_path s :
  registry_inv s -> registry_inv (state_after (loadDatabase db_name db_path) s).
Proof.
  intros [Hlen Hiff]. unfold state_after.
  destruct (database_items s !! db_name) as [x|] eqn:E.
  - rewrite loadDatabase_present by eauto. split; assumption.
  - rewrite loadDatabase_absent by assumption. split; cbn.
    + rewrite length_app, map_size_insert_None by assumption. cbn. lia.
    + intros n p. rewrite elem_of_app, list_elem_of_singleton, Hiff.
      destruct (decide (db_name = n)) as [->|Hne].
      * rewrite lookup_insert_eq, E. split.
        -- intros [H|H]; [discriminate|]. injection H as ->. reflexivity.
        -- intros H. injection H as ->. right. reflexivity.
      * rewrite lookup_insert_ne by assumption. split.
        -- intros [H|H]; [assumption|]. injection H as -> ->. contradiction.
        -- intros H. left. assumption.
Qed.

Lemma registry_inv_frame s s' :
  database_items s' = database_items s -> loaders s' = loaders s ->
  registry_inv s -> registry_inv s'.
Proof. unfold registry_inv. intros -> ->. auto. Qed.

Lemma dispatch_registry_inv w ev s :
  registry_inv s -> registry_inv (state_after (dispatch w ev) s).
Proof.
  intros Hinv. destruct ev as [p|v|k tables|idx|k|]; cbn [dispatch].
  - rewrite newSession_state. case_decide; [assumption|].
    apply loadDatabase_registry_inv, Hinv.
  - eapply registry_inv_frame; [| |exact Hinv]; reflexivity.
  - unfold state_after, bind, get. cbn.
    destruct (loaders s !! k) as [[db_name db_path]|]; [|exact Hinv].
    eapply registry_inv_frame; [| |exact Hinv]; reflexivity.
  - destruct (onTreeItemClicked_frame w idx s) as (H1 & _ & H3).
    eapply registry_inv_frame; eassumption.
  - destruct (closeTab_frame k s) as (H1 & _ & H3).
    eapply registry_inv_frame; eassumption.
  - eapply registry_inv_frame; [| |exact Hinv]; reflexivity.
Qed.

Lemma deliver_registry_inv evs : forall s, registry_inv s -> registry_inv (deliver evs s).
Proof.
  induction evs as [|[w ev] evs IH]; intros s H; [exact H|].
  cbn [deliver]. apply IH, dispatch_registry_inv, H.
Qed.

(** X7.  In every window the event loop can reach there are exactly as many
    loader threads started as there are registry entries, and a loader was
    started for a name and a path exactly when the registry maps that name
    to that path: one load per registered database, none for anything
    else. *)
Theorem one_loader_per_entry s :
  reachable s ->
  length (loaders s) = size (database_items s) /\
  (forall db_name db_path,
     (db_name, db_path) ∈ loaders s <->
     database_items s !! db_name = Some {| path := db_path |}).
Proof. intros [evs ->]. apply deliver_registry_inv, registry_inv_initial. Qed.

Lemma one_loader_per_entry_witness :
  length (loaders shop_window) = size (database_items shop_window) /\
  (forall db_name db_path,
     (db_name, db_path) ∈ loaders shop_window <->
     database_items shop_window !! db_name = Some {| path := db_path |}).
Proof.
  apply (one_loader_per_entry shop_window). exists shop_session. reflexivity.
Defined.

(** ** Table opens on every path *)

(** X8.  Whatever SQLite answers, a table open closes every connection it
    opened, opens at most one, and leaves the window untouched unless it
    returns normally with one tab appended: an exception that escapes (a
    failed connect, a metadata row without a usable name) changes nothing.
    For a database name that is not registered it does nothing at all: no
    connection is opened and no statement is issued. *)
Theorem addTableTab_connection_discipline w db_name table_name s :
  opened (events_of (addTableTab w db_name table_name) s)
  = closed (events_of (addTableTab w db_name table_name) s) /\
  (length (opened (events_of (addTableTab w db_name table_name) s)) <= 1)%nat /\
  (state_after (addTableTab w db_name table_name) s = s \/
   outcome_of (addTableTab w db_name table_name) s = inr PyNone /\
   exists page,
     tabs (state_after (addTableTab w db_name table_name) s) = tabs s ++ [page]) /\
  (database_items s !! db_name = None ->
   addTableTab w db_name table_name s = (s, [], inr PyNone)).
Proof.
  assert (Hmain :
    opened (events_of (addTableTab w db_name table_name) s)
    = closed (events_of (addTableTab w db_name table_name) s) /\
    (length (opened (events_of (addTableTab w db_name table_name) s)) <= 1)%nat /\
    (state_after (addTableTab w db_name table_name) s = s \/
     outcome_of (addTableTab w db_name table_name) s = inr PyNone /\
     exists page,
       tabs (state_after (addTableTab w db_name table_name) s) = tabs s ++ [page])).
  2:{ destruct Hmain as (H1 & H2 & H3). repeat split; try assumption.
      apply addTableTab_unregistered. }
  unfold events_of, state_after, outcome_of.
  destruct (database_items s !! db_name) as [info|] eqn:Hreg.
  2:{ rewrite addTableTab_unregistered by assumption. cbn. auto. }
  destruct (connect_ok w (path info)) eqn:Hc.
  2:{ rewrite (addTableTab_connect_failure w db_name table_name s info Hreg Hc).
      cbn. auto. }
  destruct (execute_result w (path info) (scan_query table_name)) as [msg|data] eqn:Hq.
  { rewrite (addTableTab_scan_failure w db_name table_name s info Hreg Hc msg Hq).
    cbn. auto. }
  destruct (execute_result w (path info) (table_info_query table_name))
    as [msg|columns] eqn:Hi.
  { rewrite (addTableTab_info_failure w db_name table_name s info Hreg Hc data msg Hq Hi).
    cbn. auto. }
  destruct (header_labels columns) as [e|names] eqn:Hh.
  - rewrite (addTableTab_header_failure w db_name table_name s info Hreg Hc data columns e
               Hq Hi Hh (header_labels_not_sqlite columns e Hh)).
    cbn. auto.
  - rewrite (addTableTab_success w db_name table_name s info Hreg Hc data columns names
               Hq Hi Hh).
    cbn [fst snd]. split; [reflexivity|]. split; [cbn; lia|].
    right. split; [reflexivity|].
    eexists. cbn zeta.
    destruct (setCurrentIndex_frame
                (Z.of_nat (length (tabs (addTab (build_grid w data columns names)
                                           table_name s))) - 1)
                (addTab (build_grid w data columns names) table_name s))
      as (_ & _ & _ & Ht).
    rewrite Ht. reflexivity.
Qed.

Lemma addTableTab_connection_discipline_witness :
  addTableTab shop_world "other.db" "customers" shop_window = (shop_window, [], inr PyNone).
Proof.
  apply (addTableTab_connection_discipline shop_world "other.db" "customers" shop_window).
  vm_compute. reflexivity.
Defined.

Lemma setCurrentIndex_last grid label s :
  setCurrentIndex (Z.of_nat (length (tabs (addTab grid label s))) - 1) (addTab grid label s)
  = set_tabs (fun pages => pages) (Z.of_nat (length (tabs s))) (addTab grid label s).
Proof.
  unfold setCurrentIndex.
  assert (Hlen : length (tabs (addTab grid label s)) = S (length (tabs s))).
  { cbn. rewrite length_app. cbn. lia. }
  rewrite Hlen. case_decide; [|lia].
  f_equal. lia.
Qed.

Lemma remove_nth_last {A} (l : list A) x : remove_nth (length l) (l ++ [x]) = l.
Proof. induction l as [|y l IH]; [reflexivity|]. cbn. f_equal. exact IH. Qed.

Lemma opened_window w db_name table_name s info data columns names :
  database_items s !! db_name = Some info ->
  connect_ok w (path info) = true ->
  execute_result w (path info) (scan_query table_name) = inr data ->
  execute_result w (path info) (table_info_query table_name) = inr columns ->
  header_labels columns = inr names ->
  state_after (addTableTab w db_name table_name) s
  = set_tabs (fun pages => pages) (Z.of_nat (length (tabs s)))
      (addTab (build_grid w data columns names) table_name s).
Proof.
  intros Hreg Hconn Hscan Hinfo Hnames. unfold state_after.
  rewrite (addTableTab_success w db_name table_name s info Hreg Hconn data columns names
             Hscan Hinfo Hnames).
  cbn [fst]. cbn zeta. apply setCurrentIndex_last.
Qed.

Section SuccessfulOpen.
Variable w : world.
Variables db_name table_name : string.
Variable s : main_window.
Variable info : db_info.
Variables data columns : list row.
Variable names : list string.
Hypothesis Hreg : database_items s !! db_name = Some info.
Hypothesis Hconn : connect_ok w (path info) = true.
Hypothesis Hscan : execute_result w (path info) (scan_query table_name) = inr data.
Hypothesis Hinfo : execute_result w (path info) (table_info_query table_name) = inr columns.
Hypothesis Hnames : header_labels columns = inr names.

(** X9.  A successful open makes the new tab the current one, and tabs are
    not shared between opens: opening the same table again in the same world
    appends a second tab with the same label and the same grid and moves the
    selection to it. *)
Theorem new_tab_is_current_and_not_shared :
  currentIndex (state_after (addTableTab w db_name table_name) s)
  = Z.of_nat (length (tabs s)) /\
  exists page,
    tab_text page = table_name /\
    tabs (state_after (addTableTab w db_name table_name)
            (state_after (addTableTab w db_name table_name) s))
    = tabs s ++ [page; page] /\
    currentIndex (state_after (addTableTab w db_name table_name)
                    (state_after (addTableTab w db_name table_name) s))
    = Z.of_nat (length (tabs s)) + 1.
Proof.
  pose proof (opened_window w db_name table_name s info data columns names
                Hreg Hconn Hscan Hinfo Hnames) as Hs1.
  split; [rewrite Hs1; reflexivity|].
  exists {| tab_widget := build_grid w data columns names; tab_text := table_name |}.
  split; [reflexivity|].
  assert (Hreg1 : database_items (state_after (addTableTab w db_name table_name) s)
                    !! db_name = Some info) by (rewrite Hs1; exact Hreg).
  rewrite (opened_window w db_name table_name _ info data columns names
             Hreg1 Hconn Hscan Hinfo Hnames).
  rewrite Hs1. cbn. rewrite <- app_assoc, length_app. cbn.
  split; [reflexivity|lia].
Qed.

(** X10.  Closing the tab a successful open has just added gives back the
    tabs there were before the open. *)
Theorem open_then_close_restores_tabs :
  tabs (state_after (closeTab (Z.of_nat (length (tabs s))))
          (state_after (addTableTab w db_name table_name) s))
  = tabs s.
Proof.
  rewrite (opened_window w db_name table_name s info data columns names
             Hreg Hconn Hscan Hinfo Hnames).
  unfold state_after, closeTab, bind, modify. cbn [fst].
  unfold removeTab. cbn [tabs set_tabs addTab].
  rewrite length_app. cbn [length].
  case_decide; [|lia].
  cbn [tabs set_tabs]. rewrite Nat2Z.id. apply remove_nth_last.
Qed.
End SuccessfulOpen.

Lemma new_tab_is_current_and_not_shared_witness :
  currentIndex (state_after (addTableTab shop_world "shop.db" "customers") shop_window)
  = Z.of_nat (length (tabs shop_window)) /\
  exists page,
    tab_text page = "customers" /\
    tabs (state_after (addTableTab shop_world "shop.db" "customers")
            (state_after (addTableTab shop_world "shop.db" "customers") shop_window))
    = tabs shop_window ++ [page; page] /\
    currentIndex (state_after (addTableTab shop_world "shop.db" "customers")
                    (state_after (addTableTab shop_world "shop.db" "customers") shop_window))
    = Z.of_nat (length (tabs shop_window)) + 1.
Proof.
  apply (new_tab_is_current_and_not_shared shop_world "shop.db" "customers" shop_window
           {| path := "/data/shop.db" |} customers_rows customers_columns ["id"; "name"]).
  - vm_compute. reflexivity.
  - reflexivity.
  - reflexivity.
  - reflexivity.
  - reflexivity.
Defined.

Lemma open_then_close_restores_tabs_witness :
  tabs (state_after (closeTab (Z.of_nat (length (tabs shop_window))))
          (state_after (addTableTab shop_world "shop.db" "customers") shop_window))
  = tabs shop_window.
Proof.
  apply (open_then_close_restores_tabs shop_world "shop.db" "customers" shop_window
           {| path := "/data/shop.db" |} customers_rows customers_columns ["id"; "name"]).
  - vm_compute. reflexivity.
  - reflexivity.
  - reflexivity.
  - reflexivity.
  - reflexivity.
Defined.

(** ** Clicks and progress signals *)

Lemma addTableTab_title w db_name table_name s :
  dock_title (state_after (addTableTab w db_name table_name) s) = dock_title s.
Proof.
  unfold state_after.
  destruct (addTableTab_cases w db_name table_name s)
    as [H|[(e & tr & H)|(grid & tr & H)]]; rewrite H; cbn [fst]; try reflexivity.
  cbn zeta. rewrite setCurrentIndex_last. reflexivity.
Qed.

(** X12.  A click on a table node retitles the dock for that table and its
    database before the table is opened, so the title changes whether or not
    a tab appears; no click of either kind changes the tree, the registry or
    the loaders, and a click on a database node changes nothing but the
    title. *)
Theorem click_retitles w s :
  (forall r item,
     treeModel s !! r = Some item ->
     state_after (onTreeItemClicked w (TopLevel r)) s
     = setWindowTitle ("Database: " +:+ text item) s) /\
  (forall pr r parent table_name,
     treeModel s !! pr = Some parent ->
     children parent !! r = Some table_name ->
     dock_title (state_after (onTreeItemClicked w (Child pr r)) s)
     = "Table: " +:+ table_name +:+ " (" +:+ text parent +:+ ")" /\
     treeModel (state_after (onTreeItemClicked w (Child pr r)) s) = treeModel s /\
     database_items (state_after (onTreeItemClicked w (Child pr r)) s) = database_items s /\
     loaders (state_after (onTreeItemClicked w (Child pr r)) s) = loaders s).
Proof.
  split.
  - intros r item Hr. unfold state_after.
    rewrite (onTreeItemClicked_top w r s item Hr). reflexivity.
  - intros pr r parent table_name Hp Hr.
    destruct (onTreeItemClicked_frame w (Child pr r) s) as (H1 & H2 & H3).
    split; [|auto].
    unfold state_after.
    rewrite (onTreeItemClicked_child w pr r s parent table_name Hp Hr).
    exact (addTableTab_title w (text parent) table_name
             (setWindowTitle ("Table: " +:+ table_name +:+ " (" +:+ text parent +:+ ")") s)).
Qed.

Lemma click_retitles_witness :
  dock_title (state_after (onTreeItemClicked shop_world (Child 0 2)) shop_window)
  = "Table: order (shop.db)" /\
  tabs (state_after (onTreeItemClicked shop_world (Child 0 2)) shop_window) = [].
Proof.
  destruct (click_retitles shop_world shop_window) as [_ H].
  destruct (H 0%nat 2%nat {| text := "shop.db"; children := ["customers"; "orders"; "order"] |}
              "order" eq_refl eq_refl) as (Ht & _).
  split; [exact Ht|reflexivity].
Defined.

Lemma deliver_progress w : forall vs s,
  progress_bar_value (deliver (map (fun v => (w, LoaderProgress v)) vs) s)
  = default (progress_bar_value s) (last vs) /\
  tabs (deliver (map (fun v => (w, LoaderProgress v)) vs) s) = tabs s /\
  treeModel (deliver (map (fun v => (w, LoaderProgress v)) vs) s) = treeModel s /\
  database_items (deliver (map (fun v => (w, LoaderProgress v)) vs) s) = database_items s.
Proof.
  induction vs as [|v vs IH]; intros s; [repeat split; reflexivity|].
  cbn [map deliver].
  destruct (IH (state_after (dispatch w (LoaderProgress v)) s)) as (H1 & H2 & H3 & H4).
  rewrite H1, H2, H3, H4. split; [|repeat split; reflexivity].
  destruct vs as [|v' vs]; [reflexivity|].
  change (last (v :: v' :: vs)) with (last (v' :: vs)).
  destruct (last (v' :: vs)) as [x|] eqn:E; [reflexivity|].
  apply last_None in E. discriminate.
Qed.

(** X13.  When the progress signals of a run over a catalog with at least
    one table have been delivered, in order, the progress bar reads 100; the
    tabs, the tree and the registry are as they were. *)
Theorem bar_full_after_listing w w' db_path tables s :
  connect_ok w db_path = true ->
  execute_result w db_path catalog_query = inr tables ->
  Forall (fun table : row => table <> []) tables ->
  tables <> [] ->
  progress_bar_value (deliver (progress_signals w' (events_of (run w db_path) tt)) s) = 100 /\
  tabs (deliver (progress_signals w' (events_of (run w db_path) tt)) s) = tabs s /\
  treeModel (deliver (progress_signals w' (events_of (run w db_path) tt)) s) = treeModel s /\
  database_items (deliver (progress_signals w' (events_of (run w db_path) tt)) s)
  = database_items s.
Proof.
  intros Hc Hq Hwf Hne. unfold progress_signals.
  destruct (deliver_progress w' (progress_values (events_of (run w db_path) tt)) s)
    as (H1 & H2 & H3 & H4).
  rewrite H1. split; [|auto].
  destruct (run_listing w db_path tables Hc Hq Hwf) as (vs & names & Hrun & Hvs & _).
  unfold events_of. rewrite Hrun. cbn [fst snd]. rewrite progress_values_listing.
  assert (Hlen : length vs = length tables).
  { apply Forall2_length in Hvs. rewrite length_seqZ in Hvs. lia. }
  assert (Hpos : (0 < length tables)%nat) by (destruct tables; [congruence|cbn; lia]).
  rewrite last_lookup.
  destruct (lookup_lt_is_Some_2 vs (pred (length vs)) ltac:(lia)) as [v Hv].
  rewrite Hv. cbn.
  destruct (Forall2_lookup_r _ _ _ _ _ Hvs Hv) as (k & Hk & _ & Hp).
  apply lookup_seqZ in Hk as [-> _]. cbn beta in Hp.
  replace (0 + Z.of_nat (pred (length vs))) with (Z.of_nat (length tables) - 1) in Hp by lia.
  rewrite progress_value_last in Hp by lia. congruence.
Qed.

Lemma bar_full_after_listing_witness :
  progress_bar_value
    (deliver (progress_signals shop_world (events_of (run shop_world "/data/shop.db") tt))
       initial_window) = 100 /\
  tabs (deliver (progress_signals shop_world (events_of (run shop_world "/data/shop.db") tt))
          initial_window) = tabs initial_window /\
  treeModel
    (deliver (progress_signals shop_world (events_of (run shop_world "/data/shop.db") tt))
       initial_window) = treeModel initial_window /\
  database_items
    (deliver (progress_signals shop_world (events_of (run shop_world "/data/shop.db") tt))
       initial_window) = database_items initial_window.
Proof.
  apply (bar_full_after_listing shop_world shop_world "/data/shop.db" shop_catalog
           initial_window).
  - reflexivity.
  - reflexivity.
  - repeat constructor; discriminate.
  - discriminate.
Defined.

(** ** What the grid shows *)

Lemma traverse_success {A B} (g : A -> exn + B) : forall l ys,
  traverse g l = inr ys -> Forall2 (fun x y => g x = inr y) l ys.
Proof.
  induction l as [|x rest IH]; intros ys H.
  - injection H as <-. constructor.
  - cbn [traverse] in H. destruct (g x) as [e|y] eqn:Ex; [discriminate|].
    destruct (traverse g rest) as [e|ys'] eqn:Er; [discriminate|].
    injection H as <-. constructor; [assumption|]. apply IH. reflexivity.
Qed.

Lemma header_labels_names columns names :
  header_labels columns = inr names ->
  Forall2 (fun (col : row) name =>
             col !! 1%nat = Some (SqlText name) \/
             col !! 1%nat = Some SqlNull /\ name = "")
          columns names.
Proof.
  unfold header_labels. intros H.
  destruct (traverse second_field columns) as [e|vs] eqn:E; [discriminate|].
  apply traverse_success in E. apply traverse_success in H.
  revert names H. induction E as [|col v columns vs Hcol _ IH]; intros names H.
  - inversion H. constructor.
  - inversion H as [|? name ? names' Hv Hrest]; subst.
    constructor; [|apply IH; assumption].
    unfold second_field in Hcol. destruct (col !! 1%nat) as [v'|]; [|discriminate].
    injection Hcol as ->. destruct v; try discriminate; cbn in Hv; injection Hv as <-.
    + right. split; reflexivity.
    + left. reflexivity.
Qed.

Lemma blank_rows m : forall n start,
  flat_map (fun _ : nat => replicate m (@None string)) (seq start n)
  = concat (replicate n (replicate m None)).
Proof.
  induction n as [|n IH]; intros start; [reflexivity|].
  cbn. f_equal. apply IH.
Qed.

Lemma blank_grid n m :
  cells (setColumnCount m (setRowCount n QTableWidget))
  = concat (replicate n (replicate m None)).
Proof.
  unfold setColumnCount, setRowCount, row_cells. cbn.
  rewrite <- (blank_rows m n 0). apply flat_map_ext. intros r.
  rewrite take_0. apply resize_nil.
Qed.

Lemma fill_row w r m : forall (rowData : row) c0 t pre post,
  columnCount t = m ->
  cells t = pre ++ replicate (length rowData) None ++ post ->
  length pre = (r * m + c0)%nat ->
  cells (fold_left (fun t '(c, item) => setItem r c (py_str w item) t)
           (imap (fun c item => ((c0 + c)%nat, item)) rowData) t)
  = pre ++ render_row w rowData ++ post.
Proof.
  induction rowData as [|item rest IH]; intros c0 t pre post Hm Hcells Hpre.
  - exact Hcells.
  - rewrite imap_cons. cbn [fold_left].
    rewrite (imap_ext _ (fun c item => ((S c0 + c)%nat, item))).
    2:{ intros i x _. cbn. f_equal. lia. }
    rewrite (IH (S c0) _ (pre ++ [Some (py_str w item)]) post).
    + rewrite <- app_assoc. reflexivity.
    + exact Hm.
    + cbn [cells setItem]. rewrite Hm, Hcells.
      replace (r * m + (c0 + 0))%nat with (length pre + 0)%nat by lia.
      rewrite insert_app_r. cbn. rewrite <- app_assoc. reflexivity.
    + rewrite length_app. cbn. lia.
Qed.

Lemma fill_rows w m : forall (data : list row) r0 t pre,
  columnCount t = m ->
  Forall (fun rowData : row => length rowData = m) data ->
  cells t = pre ++ concat (replicate (length data) (replicate m None)) ->
  length pre = (r0 * m)%nat ->
  cells (fold_left
           (fun t '(r, rowData) =>
              fold_left (fun t '(c, item) => setItem r c (py_str w item) t)
                        (imap (fun c item => (c, item)) rowData) t)
           (imap (fun r rowData => ((r0 + r)%nat, rowData)) data) t)
  = pre ++ concat (map (render_row w) data).
Proof.
  induction data as [|rowData rest IH]; intros r0 t pre Hm Hwf Hcells Hpre.
  - exact Hcells.
  - apply Forall_cons in Hwf as [Hrow Hrest].
    rewrite imap_cons. cbn [fold_left].
    rewrite (imap_ext _ (fun r rowData => ((S r0 + r)%nat, rowData))).
    2:{ intros i x _. cbn. f_equal. lia. }
    set (t1 := fold_left (fun t '(c, item) => setItem (r0 + 0) c (py_str w item) t)
                 (imap (fun c item => (c, item)) rowData) t).
    assert (Hcells1 : cells t1 = pre ++ render_row w rowData
                        ++ concat (replicate (length rest) (replicate m None))).
    { unfold t1.
      change (imap (fun c item => (c, item)) rowData)
        with (imap (fun c item => ((0 + c)%nat, item)) rowData).
      apply (fill_row w (r0 + 0) m); [exact Hm| |lia].
      rewrite Hcells, Hrow. reflexivity. }
    assert (Hm1 : columnCount t1 = m).
    { unfold t1. rewrite <- Hm. apply populate_row_counts. }
    rewrite (IH (S r0) t1 (pre ++ render_row w rowData)); try assumption.
    + cbn [map concat]. rewrite <- app_assoc. reflexivity.
    + rewrite Hcells1, <- app_assoc. reflexivity.
    + rewrite length_app. unfold render_row. rewrite length_map. lia.
Qed.

Lemma populate_headers_row w r : forall (cols : list (nat * sql_value)) t,
  horizontalHeaderLabels
    (fold_left (fun t '(c, item) => setItem r c (py_str w item) t) cols t)
  = horizontalHeaderLabels t.
Proof.
  induction cols as [|[c item] cols IH]; intros t; [reflexivity|].
  cbn [fold_left]. rewrite IH. reflexivity.
Qed.

Lemma populate_headers w data t :
  horizontalHeaderLabels (populate w data t) = horizontalHeaderLabels t.
Proof.
  unfold populate.
  generalize (imap (fun (r : nat) (rowData : row) => (r, rowData)) data).
  intros rows. revert t.
  induction rows as [|[r rowData] rows IH]; intros t; [reflexivity|].
  cbn [fold_left]. rewrite IH. apply populate_headers_row.
Qed.

(** X11.  After a successful open of a table whose rows all have as many
    values as the metadata query reported columns, the new tab's header
    labels are the column names, the second field of each metadata row, in
    order (a name that is [None] gives the empty label), and its cells are
    [str] of every value of every row, row after row. *)
Theorem grid_shows_result w s db_name table_name info data columns names :
  database_items s !! db_name = Some info ->
  connect_ok w (path info) = true ->
  execute_result w (path info) (scan_query table_name) = inr data ->
  execute_result w (path info) (table_info_query table_name) = inr columns ->
  header_labels columns = inr names ->
  Forall (fun rowData : row => length rowData = length columns) data ->
  Forall2 (fun (col : row) name =>
             col !! 1%nat = Some (SqlText name) \/
             col !! 1%nat = Some SqlNull /\ name = "")
          columns names /\
  exists page,
    tabs (state_after (addTableTab w db_name table_name) s) = tabs s ++ [page] /\
    horizontalHeaderLabels (tab_widget page) = names /\
    cells (tab_widget page) = concat (map (render_row w) data).
Proof.
  intros Hreg Hc Hq Hi Hh Hrect.
  pose proof (header_labels_names columns names Hh) as Hnames.
  split; [exact Hnames|].
  exists {| tab_widget := build_grid w data columns names; tab_text := table_name |}.
  rewrite (opened_window w db_name table_name s info data columns names Hreg Hc Hq Hi Hh).
  split; [reflexivity|]. cbn [tab_widget]. unfold build_grid. split.
  - rewrite populate_headers. cbn [horizontalHeaderLabels setHorizontalHeaderLabels].
    apply take_ge. apply Forall2_length in Hnames. cbn. lia.
  - unfold populate.
    change (imap (fun r rowData => (r, rowData)) data)
      with (imap (fun r (rowData : row) => ((0 + r)%nat, rowData)) data).
    rewrite (fill_rows w (length columns) data 0 _ []); try assumption; try reflexivity.
    cbn [cells setHorizontalHeaderLabels]. rewrite blank_grid. reflexivity.
Qed.

Lemma grid_shows_result_witness :
  Forall2 (fun (col : row) name =>
             col !! 1%nat = Some (SqlText name) \/
             col !! 1%nat = Some SqlNull /\ name = "")
          customers_columns ["id"; "name"] /\
  exists page,
    tabs (state_after (addTableTab shop_world "shop.db" "customers") shop_window)
    = tabs shop_window ++ [page] /\
    horizontalHeaderLabels (tab_widget page) = ["id"; "name"] /\
    cells (tab_widget page) = concat (map (render_row shop_world) customers_rows).
Proof.
  apply (grid_shows_result shop_world shop_window "shop.db" "customers"
           {| path := "/data/shop.db" |} customers_rows customers_columns ["id"; "name"]).
  - vm_compute. reflexivity.
  - reflexivity.
  - reflexivity.
  - reflexivity.
  - reflexivity.
  - repeat constructor.
Defined.
